(** * jsonrpc-server: the interface registry, its property meta-methods and
      the signal bus of [server.py], embedded and verified.

    The embedding follows [server.py] definition by definition:
    - the decorators [method], [signal] and [rpc_property] and the tags they
      leave on a class member;
    - [ServiceInterface.__init__], which sorts the tagged members of a class
      into the method, signal and property lists;
    - the bus of an interface ([_add_bus], [_remove_bus], [_handle_signal]
      and its done-callback [resolve_task]);
    - the aggregator [RPC]: [register_interface], the meta-methods
      [Property.Get], [Property.Set], [Property.GetAll],
      [Introspectable.Introspect], and the cascading [_add_bus] and
      [_remove_bus];
    - the two interfaces [main] instantiates, [RPC] and [TimeService];
    - [process_request], the static file server, over the [os.path]
      functions and the file system it is given;
    - [ws_handler], the life of one connection around its message loop.

    Python objects are mutable and shared: the aggregator is at once the
    registry and one of the interfaces it registers.  Interface objects
    therefore live in a store addressed by their identity, and every
    operation passes the store along.  A Python exception does not undo the
    mutations made before it was raised, so an operation returns its outcome
    together with the state it leaves behind. *)

From stdpp Require Import base decidable countable gmap sets list strings pretty.
From Stdlib Require Import ZArith Ascii String.

Set Warnings "-clear-no-such-hyp".

Local Open Scope string_scope.
Local Open Scope list_scope.
Local Open Scope Z_scope.

(** ** Python values, exceptions and outcomes *)

(** The JSON-like values that travel as parameters and results, and
    [VObject] for any other Python object a lookup may return (a bound
    method, a list of descriptors, a set of peers, ...), named by a
    description. *)
Inductive value : Type :=
| VNone
| VBool (b : bool)
| VInt (z : Z)
| VStr (s : string)
| VObject (description : string).

#[global] Instance value_eq_dec : EqDecision value.
Proof. solve_decision. Defined.

(** The exceptions the modelled code raises.  All three are built-in Python
    exceptions; [server.py] defines no exception class of its own. *)
Inductive exn : Type :=
| KeyError
| AttributeError
| TypeError.

#[global] Instance exn_eq_dec : EqDecision exn.
Proof. solve_decision. Defined.

(** The class name of an exception, as a peer would read it. *)
Definition exn_name (e : exn) : string :=
  match e with
  | KeyError => "KeyError"
  | AttributeError => "AttributeError"
  | TypeError => "TypeError"
  end.

Inductive outcome (A : Type) : Type :=
| Return (a : A)
| Raise (e : exn).
Arguments Return {A} a.
Arguments Raise {A} e.

Definition raises {A} (o : outcome A) : bool :=
  match o with Return _ => false | Raise _ => true end.

(** A computation over a state [S]: the outcome and the state left behind,
    which on [Raise] holds the mutations made up to the raising statement. *)
Definition M (S A : Type) : Type := S → outcome A * S.

#[global] Instance M_ret {S} : MRet (M S) := λ A a s, (Return a, s).
#[global] Instance M_bind {S} : MBind (M S) := λ A B k m s,
  match m s with
  | (Return a, s') => k a s'
  | (Raise e, s') => (Raise e, s')
  end.

Definition throw {S A} (e : exn) : M S A := λ s, (Raise e, s).
Definition get_state {S} : M S S := λ s, (Return s, s).
Definition modify_state {S} (f : S → S) : M S unit := λ s, (Return tt, f s).

(** [for x in xs: body x] *)
Fixpoint for_each {S A} (xs : list A) (body : A → M S unit) : M S unit :=
  match xs with
  | [] => mret tt
  | x :: xs' => body x;; for_each xs' body
  end.

(** ** Functions, descriptors and tagged members *)

(** A function object: its [__name__] and its identity.  Two [def]s of the
    same name (a getter and its setter) are two objects. *)
Record function : Type := Function { fn_name : string; fn_id : nat }.

#[global] Instance function_eq_dec : EqDecision function.
Proof. solve_decision. Defined.

#[global] Instance function_countable : Countable function.
Proof.
  refine (inj_countable' (λ f, (fn_name f, fn_id f))
                         (λ p, Function p.1 p.2) _).
  by intros [].
Defined.

(** [class _Method] and [class _Signal]: a name and the undecorated
    function. *)
Record _Method : Type := Method { m_name : string; m_fn : function }.
Record _Signal : Type := Signal { s_name : string; s_fn : function }.

(** [class _Property(property)]: the [name] attribute with [property]'s
    [fget] and [fset], either of which may be [None]. *)
Record _Property : Type :=
  Property { p_name : string; fget : option function; fset : option function }.

#[global] Instance Method_eq_dec : EqDecision _Method.
Proof. solve_decision. Defined.
#[global] Instance Signal_eq_dec : EqDecision _Signal.
Proof. solve_decision. Defined.
#[global] Instance Property_eq_dec : EqDecision _Property.
Proof. solve_decision. Defined.

(** What [ServiceInterface.__init__] reads of a class member: the three keys
    it looks for in [member.__dict__].  [RPC_PROPERTY] is [Some p] when the
    member is the [_Property] instance [p], whose [__init__] always sets the
    key; a member without [__dict__], or with none of the keys, is
    [untagged]. *)
Record member : Type := Member {
  RPC_METHOD : option _Method;
  RPC_SIGNAL : option _Signal;
  RPC_PROPERTY : option _Property;
}.

#[global] Instance member_eq_dec : EqDecision member.
Proof. solve_decision. Defined.

Definition untagged : member := Member None None None.

(** [name if name else fn.__name__]: [None] and the empty string are both
    false. *)
Definition name_or (name : option string) (fn : function) : string :=
  match name with
  | Some n => if decide (n = "") then fn_name fn else n
  | None => fn_name fn
  end.

(** [@method(name)] on a plain function: the wrapper carries
    [__RPC_METHOD]. *)
Definition method (name : option string) (fn : function) : member :=
  Member (Some (Method (name_or name fn) fn)) None None.

(** [@signal(name)] on a plain function: the wrapper carries
    [__RPC_SIGNAL]; what the wrapper does when called is [signal_wrapped]
    below. *)
Definition signal (name : option string) (fn : function) : member :=
  Member None (Some (Signal (name_or name fn) fn)) None.


(** [@rpc_property(name)]: [_Property(fn, name=fn_name)]. *)
Definition rpc_property (name : option string) (fn : function) : member :=
  Member None None (Some (Property (name_or name fn) (Some fn) None)).

(** [_Property.setter]: [property.setter] copies the property with the new
    [fset]; the copy then receives the name of the original. *)
Definition setter (self : _Property) (fn : function) : _Property :=
  Property (p_name self) (fget self) (Some fn).

(** ** ServiceInterface *)

(** A peer is an opaque connection handle, compared by identity. *)
Abbreviation Peer := nat (only parsing).

(** An instance of [ServiceInterface] or of a subclass.
    - [members] is [inspect.getmembers(type(self))]: the attributes of the
      class with their names, in the order of the names;
    - [__methods], [__properties], [__signals] and [__bus] are the private
      attributes [__init__] creates;
    - [attrs] is the instance [__dict__] as [getattr] and [setattr] see it:
      every instance attribute with its value, the private ones above as
      [VObject] placeholders.  The framework reads its own attributes from
      the typed fields; an assignment that would replace one of them is
      outside what the record describes (see [setattr]). *)
Record ServiceInterface : Type := Interface {
  name : string;
  members : list (string * member);
  __methods : list _Method;
  __properties : list _Property;
  __signals : list _Signal;
  __bus : gset Peer;
  attrs : gmap string value;
}.

(** The lists and the getter set the loop of [__init__] fills. *)
Record scan : Type := Scan {
  sc_methods : list _Method;
  sc_properties : list _Property;
  sc_properties_getters : gset (option function);
  sc_signals : list _Signal;
}.

(** One iteration of [for name, member in inspect.getmembers(type(self))]. *)
Definition scan_member (sc : scan) (nm : string * member) : scan :=
  let member := nm.2 in
  match RPC_METHOD member with
  | Some method =>
      Scan (sc_methods sc ++ [method]) (sc_properties sc)
           (sc_properties_getters sc) (sc_signals sc)
  | None =>
      match RPC_SIGNAL member with
      | Some method =>
          Scan (sc_methods sc) (sc_properties sc)
               (sc_properties_getters sc) (sc_signals sc ++ [method])
      | None =>
          match RPC_PROPERTY member with
          | Some p =>
              if decide (fget p ∈ sc_properties_getters sc) then sc
              else Scan (sc_methods sc) (sc_properties sc ++ [p])
                        ({[fget p]} ∪ sc_properties_getters sc) (sc_signals sc)
          | None => sc
          end
      end
  end.

Definition scan_members (cls : list (string * member)) : scan :=
  foldl scan_member (Scan [] [] ∅ []) cls.

(** The instance attributes [ServiceInterface.__init__] leaves behind
    ([__properties_getters] is deleted at the end). *)
Definition ServiceInterface_attrs (name : string) : gmap string value :=
  <["name" := VStr name]>
  (<["_ServiceInterface__methods" := VObject "list"]>
  (<["_ServiceInterface__properties" := VObject "list"]>
  (<["_ServiceInterface__signals" := VObject "list"]>
  (<["_ServiceInterface__bus" := VObject "set"]> ∅)))).

(** [ServiceInterface.__init__(self, name)] for an instance of the class
    whose members are [cls]. *)
Definition ServiceInterface_init (name : string) (cls : list (string * member))
  : ServiceInterface :=
  let sc := scan_members cls in
  Interface name cls (sc_methods sc) (sc_properties sc) (sc_signals sc) ∅
            (ServiceInterface_attrs name).

Definition _get_methods (self : ServiceInterface) : list _Method :=
  __methods self.

Definition _get_properties (self : ServiceInterface) : list _Property :=
  __properties self.

(** *** The bus of an interface *)

Definition set_bus (self : ServiceInterface) (b : gset Peer) : ServiceInterface :=
  Interface (name self) (members self) (__methods self) (__properties self)
            (__signals self) b (attrs self).

Definition set_attrs (self : ServiceInterface) (a : gmap string value)
  : ServiceInterface :=
  Interface (name self) (members self) (__methods self) (__properties self)
            (__signals self) (__bus self) a.

(** [self.__bus.add(bus)] *)
Definition _add_bus (bus : Peer) : M ServiceInterface unit :=
  modify_state (λ self, set_bus self ({[bus]} ∪ __bus self)).

(** [self.__bus.remove(bus)]: [set.remove] raises [KeyError] on a missing
    element. *)
Definition _remove_bus (bus : Peer) : M ServiceInterface unit :=
  λ self, if decide (bus ∈ __bus self)
          then (Return tt, set_bus self (__bus self ∖ {[bus]}))
          else (Raise KeyError, self).

(** A pending [asyncio] task: [bus.send(message)]. *)
Record task : Type := Task { t_bus : Peer; t_message : string }.

(** The double quote, and the text [_handle_signal] sends.  It is the literal
    of the source, character for character. *)
Definition dq : string := String "034"%char EmptyString.

Definition signal_message : string :=
  "{" +:+ dq +:+ "jsonrpc: " +:+ dq +:+ "2.0" +:+ dq +:+ ", "
      +:+ dq +:+ "method" +:+ dq +:+ ":" +:+ dq +:+ "a.signal.bla" +:+ dq +:+ ", "
      +:+ dq +:+ "params" +:+ dq +:+ ": [" +:+ dq +:+ "hello" +:+ dq +:+ "]}".

(** [_handle_signal(self, signal, result)]: one task per peer of the bus, in
    the iteration order of the set.  Creating a task runs nothing yet, so
    the bus is not touched while it is iterated. *)
Definition _handle_signal (self : ServiceInterface) (signal : _Signal)
    (result : value) : list task :=
  (λ bus, Task bus signal_message) <$> elements (__bus self).

(** [resolve_task(bus, task)], the done-callback of a task, given
    [task.exception()]. *)
Definition resolve_task (bus : Peer) (exception : option string)
  : M ServiceInterface unit :=
  match exception with
  | Some _ => _remove_bus bus
  | None => mret tt
  end.

(** *** The event loop around one interface

    The interface, the tasks still pending and, as the peers see it, the
    messages that arrived. *)
Record loop : Type := Loop {
  l_self : ServiceInterface;
  l_pending : list task;
  l_delivered : list (Peer * string);
}.

(** The loop runs a done-callback and carries on whatever the callback
    raises (asyncio reports the exception to the loop's exception handler):
    only the state the callback leaves behind counts. *)
Definition run_callback (cb : M ServiceInterface unit) (self : ServiceInterface)
  : ServiceInterface := (cb self).2.

(** One step: some pending task completes, with or without an exception,
    and its done-callback runs.  The event names the peer and tells whether
    the send went through. *)
Inductive step : loop → Peer * bool → loop → Prop :=
| step_sent self t before after log :
    step (Loop self (before ++ t :: after) log)
         (t_bus t, true)
         (Loop (run_callback (resolve_task (t_bus t) None) self)
               (before ++ after) (log ++ [(t_bus t, t_message t)]))
| step_failed self t before after log e :
    step (Loop self (before ++ t :: after) log)
         (t_bus t, false)
         (Loop (run_callback (resolve_task (t_bus t) (Some e)) self)
               (before ++ after) log).

Inductive steps : loop → list (Peer * bool) → loop → Prop :=
| steps_nil l : steps l [] l
| steps_cons l1 ev l2 evs l3 :
    step l1 ev l2 → steps l2 evs l3 → steps l1 (ev :: evs) l3.

(** ** Attribute access and the signal wrapper, for given function bodies *)

(** The name handed to [getattr]: a string, or (as [Property.GetAll] does)
    a [_Property] object. *)
Inductive key : Type :=
| KStr (s : string)
| KProperty (p : _Property).

#[global] Instance key_eq_dec : EqDecision key.
Proof. solve_decision. Defined.

(** The instance attributes the code of [ServiceInterface] and of [RPC]
    works with: those [ServiceInterface.__init__] and [RPC.__init__]
    create (the private names as Python mangles them). *)
Definition framework_attrs : list string :=
  ["name"; "_ServiceInterface__methods"; "_ServiceInterface__properties";
   "_ServiceInterface__signals"; "_ServiceInterface__bus";
   "dispatcher"; "interfaces"; "bus"].

(** Lookup through the class: the member of that name, if any. *)
Fixpoint class_attr (cls : list (string * member)) (n : string) : option member :=
  match cls with
  | [] => None
  | (n', m) :: cls' => if decide (n' = n) then Some m else class_attr cls' n
  end.

Section Semantics.

(** What calling a function object on an instance does: [body f args] is
    [f(self, *args)]. *)
Variable body : function → list value → M ServiceInterface value.

(** [getattr(self, n)] for a string [n]: a property of the class goes first
    (it is a data descriptor) and calls its getter; then the instance
    [__dict__]; then any other attribute of the class, whose value the model
    does not keep. *)
Definition getattr_str (n : string) : M ServiceInterface value :=
  λ self,
    match class_attr (members self) n with
    | Some (Member _ _ (Some p)) =>
        match fget p with
        | Some f => body f [] self
        | None => (Raise AttributeError, self)
        end
    | c =>
        match attrs self !! n with
        | Some v => (Return v, self)
        | None =>
            match c with
            | Some _ => (Return (VObject "attribute of the class"), self)
            | None => (Raise AttributeError, self)
            end
        end
    end.

(** [getattr(self, k)]: the name must be a string. *)
Definition getattr (k : key) : M ServiceInterface value :=
  match k with
  | KStr n => getattr_str n
  | KProperty _ => throw TypeError
  end.

(** [setattr(self, n, v)], for a class that keeps [object.__setattr__].
    - A property of the class is a data descriptor: the assignment calls its
      setter, or raises [AttributeError] when it has none.
    - [__weakref__], [__class__] and [__dict__] are data descriptors every
      class has: the first cannot be written ([AttributeError]); the other
      two take a class and a [dict] only, and raise [TypeError] for [None],
      a boolean, a number and a string.
    - Any other name is stored in the instance [__dict__].

    The result is [None] where the assignment goes through in Python and
    leaves an object the record [ServiceInterface] no longer describes: a
    new [__class__] or [__dict__] (the value is then some object), a new
    value for one of the [framework_attrs], or an instance attribute in
    front of an attribute of the class, which the code may be calling on
    the instance ([_add_bus], [_get_methods], ...). *)
Definition setattr (n : string) (v : value) (self : ServiceInterface)
  : option (outcome unit * ServiceInterface) :=
  match class_attr (members self) n with
  | Some (Member _ _ (Some p)) =>
      match fset p with
      | Some f => Some ((body f [v];; mret tt) self)
      | None => Some (Raise AttributeError, self)
      end
  | c =>
      if decide (n = "__weakref__") then Some (Raise AttributeError, self)
      else if decide (n ∈ ["__class__"; "__dict__"]) then
        match v with
        | VObject _ => None
        | _ => Some (Raise TypeError, self)
        end
      else if decide (n ∈ framework_attrs) then None
      else
        match c with
        | Some _ => None
        | None => Some (Return tt, set_attrs self (<[n := v]> (attrs self)))
        end
  end.

(** The function [signal] puts in place of [fn]:
    [result = fn(self, *args); _handle_signal(self, signal, result);
     return result]. *)
Definition signal_wrapped (signal : _Signal) (args : list value) : M loop value :=
  λ l,
    match body (s_fn signal) args (l_self l) with
    | (Raise e, self') => (Raise e, Loop self' (l_pending l) (l_delivered l))
    | (Return result, self') =>
        (Return result,
         Loop self' (l_pending l ++ _handle_signal self' signal result)
              (l_delivered l))
    end.

End Semantics.

(** ** The aggregator RPC *)

(** A Python [dict] with string keys, in insertion order: assigning to a key
    that is present keeps its place. *)
Fixpoint dict_get {V} (d : list (string * V)) (k : string) : option V :=
  match d with
  | [] => None
  | (k', v) :: d' => if decide (k' = k) then Some v else dict_get d' k
  end.

Fixpoint dict_set {V} (d : list (string * V)) (k : string) (v : V)
  : list (string * V) :=
  match d with
  | [] => [(k, v)]
  | (k', v') :: d' =>
      if decide (k' = k) then (k, v) :: d' else (k', v') :: dict_set d' k v
  end.

(** The state an [RPC] instance reaches.
    - [store] holds the interface objects by identity; the instance itself,
      as the [ServiceInterface] it inherits from, is the object at
      [self_id];
    - [dispatcher] is the [method_map] of the [jsonrpc.Dispatcher]: a name
      bound to [partial(method.fn, interface)], the function and the
      identity of the interface;
    - [interfaces] is the [dict] from names to interface objects;
    - [bus] is the aggregator's own set of peers, beside the [__bus] it has
      as an interface. *)
Record RPC : Type := Registry {
  store : gmap nat ServiceInterface;
  self_id : nat;
  dispatcher : gmap string (function * nat);
  interfaces : list (string * nat);
  bus : gset Peer;
}.

Definition set_store (rpc : RPC) (s : gmap nat ServiceInterface) : RPC :=
  Registry s (self_id rpc) (dispatcher rpc) (interfaces rpc) (bus rpc).

(** An operation of the object at [addr], run inside the registry.  An
    address that holds no [ServiceInterface] stands for an object of another
    kind, on which the attribute access fails. *)
Definition at_object {A} (addr : nat) (m : M ServiceInterface A) : M RPC A :=
  λ rpc,
    match store rpc !! addr with
    | Some o => let r := m o in (r.1, set_store rpc (<[addr := r.2]> (store rpc)))
    | None => (Raise AttributeError, rpc)
    end.

(** [Dispatcher.add_method(f, name)]: [method_map[name] = f]. *)
Definition add_method (f : function * nat) (name : string) : M RPC unit :=
  modify_state (λ rpc,
    Registry (store rpc) (self_id rpc) (<[name := f]> (dispatcher rpc))
             (interfaces rpc) (bus rpc)).

(** [register_interface(self, interface)] *)
Definition register_interface (interface : nat) : M RPC unit :=
  o ← at_object interface get_state;
  modify_state (λ rpc,
    Registry (store rpc) (self_id rpc) (dispatcher rpc)
             (dict_set (interfaces rpc) (name o) interface) (bus rpc));;
  for_each (_get_methods o) (λ method,
    let bound_method := (m_fn method, interface) in
    let method_name := name o +:+ "." +:+ m_name method in
    add_method bound_method method_name).

(** [self.interfaces[interface_name]] *)
Definition interfaces_getitem (interface_name : string) : M RPC nat :=
  λ rpc,
    match dict_get (interfaces rpc) interface_name with
    | Some interface => (Return interface, rpc)
    | None => (Raise KeyError, rpc)
    end.

(** JSON objects, for the result of [Introspectable.Introspect]. *)
#[warnings="-register-all"]
Inductive json : Type :=
| JObject (fields : list (string * json)).

(** [introspect(self)] *)
Definition introspect : M RPC json :=
  rpc ← get_state;
  let data_interfaces :=
    foldl (λ d ni, dict_set d ni.1
             (JObject [("methods", JObject []); ("signals", JObject []);
                       ("properties", JObject [])]))
          [] (interfaces rpc) in
  mret (JObject [("interfaces", JObject data_interfaces)]).

(** [RPC._add_bus(self, ws)] *)
Definition RPC_add_bus (ws : Peer) : M RPC unit :=
  modify_state (λ rpc,
    Registry (store rpc) (self_id rpc) (dispatcher rpc) (interfaces rpc)
             ({[ws]} ∪ bus rpc));;
  rpc ← get_state;
  for_each (interfaces rpc).*2 (λ interface,
    if decide (interface = self_id rpc)
    then at_object (self_id rpc) (_add_bus ws)
    else at_object interface (_add_bus ws)).

(** [RPC._remove_bus(self, ws)]; on the aggregator itself the source calls
    [super()._add_bus(ws)]. *)
Definition RPC_remove_bus (ws : Peer) : M RPC unit :=
  (λ rpc, if decide (ws ∈ bus rpc)
          then (Return tt,
                Registry (store rpc) (self_id rpc) (dispatcher rpc)
                         (interfaces rpc) (bus rpc ∖ {[ws]}))
          else (Raise KeyError, rpc));;
  rpc ← get_state;
  for_each (interfaces rpc).*2 (λ interface,
    if decide (interface = self_id rpc)
    then at_object (self_id rpc) (_add_bus ws)
    else at_object interface (_remove_bus ws)).

Section MetaMethods.

Variable body : function → list value → M ServiceInterface value.

(** [get_prop(self, interface_name, property_name)] *)
Definition get_prop (interface_name property_name : string) : M RPC value :=
  interface ← interfaces_getitem interface_name;
  at_object interface (getattr body (KStr property_name)).

(** [set_prop(self, interface_name, property_name, value)]: [None] where
    [setattr] is, and for an address that holds no object. *)
Definition set_prop (interface_name property_name : string) (v : value)
    (rpc : RPC) : option (outcome value * RPC) :=
  match interfaces_getitem interface_name rpc with
  | (Return interface, rpc) =>
      o ← store rpc !! interface;
      r ← setattr body property_name v o;
      Some (match r.1 with
            | Return _ => Return VNone
            | Raise e => Raise e
            end,
            set_store rpc (<[interface := r.2]> (store rpc)))
  | (Raise e, rpc) => Some (Raise e, rpc)
  end.

(** The loop of [get_all_props]: [all_props[key] = getattr(interface, key)]
    for the elements of [interface._get_properties()], which are the
    [_Property] objects themselves. *)
Fixpoint get_all_props_loop (interface : nat) (keys : list _Property)
    (all_props : list (key * value)) : M RPC (list (key * value)) :=
  match keys with
  | [] => mret all_props
  | k :: keys' =>
      v ← at_object interface (getattr body (KProperty k));
      get_all_props_loop interface keys'
        (all_props ++ [(KProperty k, v)])
  end.

(** [get_all_props(self, interface_name)] *)
Definition get_all_props (interface_name : string) : M RPC (list (key * value)) :=
  interface ← interfaces_getitem interface_name;
  o ← at_object interface get_state;
  get_all_props_loop interface (_get_properties o) [].

End MetaMethods.

(** ** The program: the classes RPC and TimeService, and [main] *)

(** The function objects of the two classes. *)
Definition fn_time : function := Function "time" 1.
Definition fn_set_alarm : function := Function "set_alarm" 2.
Definition fn_alarm_clock : function := Function "alarm_clock" 3.
Definition fn_alarm_delay_getter : function := Function "alarm_delay" 4.
Definition fn_alarm_delay_setter : function := Function "alarm_delay" 5.
Definition fn_get_prop : function := Function "get_prop" 6.
Definition fn_set_prop : function := Function "set_prop" 7.
Definition fn_get_all_props : function := Function "get_all_props" 8.
Definition fn_props_changed : function := Function "props_changed" 9.
Definition fn_introspect : function := Function "introspect" 10.

(** The attributes every class has from [object] and from being a class
    (CPython 3.8), none of which carries a tag. *)
Definition object_members : list (string * member) :=
  (λ n, (n, untagged)) <$>
  ["__class__"; "__delattr__"; "__dict__"; "__dir__"; "__doc__"; "__eq__";
   "__format__"; "__ge__"; "__getattribute__"; "__gt__"; "__hash__";
   "__init__"; "__init_subclass__"; "__le__"; "__lt__"; "__module__";
   "__ne__"; "__new__"; "__reduce__"; "__reduce_ex__"; "__repr__";
   "__setattr__"; "__sizeof__"; "__str__"; "__subclasshook__";
   "__weakref__"].

(** The methods every subclass inherits from [ServiceInterface]. *)
Definition ServiceInterface_members : list (string * member) :=
  (λ n, (n, untagged)) <$>
  ["_add_bus"; "_get_methods"; "_get_properties"; "_handle_signal";
   "_remove_bus"].

(** [alarm_delay]: [@rpc_property()] on the getter, then
    [@alarm_delay.setter]. *)
Definition alarm_delay : member :=
  match RPC_PROPERTY (rpc_property None fn_alarm_delay_getter) with
  | Some p => Member None None (Some (setter p fn_alarm_delay_setter))
  | None => untagged
  end.

(** [inspect.getmembers(TimeService)] *)
Definition TimeService_members : list (string * member) :=
  object_members ++ ServiceInterface_members ++
  [("alarm_clock", signal None fn_alarm_clock);
   ("alarm_delay", alarm_delay);
   ("set_alarm", method None fn_set_alarm);
   ("time", method None fn_time)].

(** [inspect.getmembers(RPC)] *)
Definition RPC_members : list (string * member) :=
  object_members ++ ServiceInterface_members ++
  [("get_all_props", method (Some "Property.GetAll") fn_get_all_props);
   ("get_prop", method (Some "Property.Get") fn_get_prop);
   ("introspect", method (Some "Introspectable.Introspect") fn_introspect);
   ("props_changed", signal (Some "Properties.PropertiesChanged") fn_props_changed);
   ("register_interface", untagged);
   ("set_prop", method (Some "Property.Set") fn_set_prop)].

(** [self.x] inside a function body. *)
Definition read_attr (n : string) : M ServiceInterface value :=
  λ self, match attrs self !! n with
          | Some v => (Return v, self)
          | None => (Raise AttributeError, self)
          end.

(** The bodies of the functions that run on an interface instance alone:
    the getter and the setter of [alarm_delay], and the two signal handlers.
    A call with the wrong number of arguments is a [TypeError], and so, for
    the model, is a call of one of the other functions (they need the
    clock, the timer or the registry). *)
Definition program_body (f : function) (args : list value)
  : M ServiceInterface value :=
  match fn_id f, args with
  | 3%nat, [] => mret (VStr "ALARM")
  | 4%nat, [] => read_attr "_alarm_delay"
  | 5%nat, [v] =>
      modify_state (λ self, set_attrs self (<["_alarm_delay" := v]> (attrs self)));;
      mret VNone
  | 9%nat, [_] => mret VNone
  | _, _ => throw TypeError
  end.

(** [TimeService.__init__(self)] *)
Definition TimeService_init : ServiceInterface :=
  let self := ServiceInterface_init "ee.arti.TimeService" TimeService_members in
  set_attrs self (<["_alarm_delay" := VInt 1]> (attrs self)).

(** [RPC.__init__(self)], for the instance at address [addr]. *)
Definition RPC_init (addr : nat) : RPC :=
  let self := ServiceInterface_init "jrpc" RPC_members in
  let self := set_attrs self
    (<["dispatcher" := VObject "Dispatcher"]>
    (<["interfaces" := VObject "dict"]>
    (<["bus" := VObject "set"]> (attrs self)))) in
  (register_interface addr (Registry {[addr := self]} addr ∅ [] ∅)).2.

(** A new object enters the store at an unused address. *)
Definition new_object (o : ServiceInterface) : M RPC nat :=
  λ rpc, let addr := fresh (dom (store rpc)) in
         (Return addr, set_store rpc (<[addr := o]> (store rpc))).

(** The registry of [main]: [rpc = RPC();
    rpc.register_interface(TimeService())]. *)
Definition main_rpc : RPC :=
  ((ts ← new_object TimeService_init; register_interface ts) (RPC_init 0)).2.

(** The address [main]'s [TimeService] lives at. *)
Definition main_time_service : nat := fresh (dom (store (RPC_init 0))).

(** ** The static file server *)

(** [MIME_TYPES] *)
Definition MIME_TYPES : list (string * string) :=
  [("html", "text/html"); ("js", "text/javascript"); ("css", "text/css")].

(** [d.get(k, default)] *)
Definition dict_get_default {V} (d : list (string * V)) (k : string) (dflt : V) : V :=
  default dflt (dict_get d k).

(** [s.split(sep)] for a separator of one character: the pieces between the
    occurrences of [sep], of which there is always at least one. *)
Fixpoint split (sep : ascii) (s : string) : list string :=
  match s with
  | EmptyString => [""]
  | String c s' =>
      if decide (c = sep) then "" :: split sep s'
      else match split sep s' with
           | w :: ws => String c w :: ws
           | [] => [String c ""]
           end
  end.

(** [full_path.split(".")[-1]]; the list is never empty, so the index
    [-1] is always there. *)
Definition extension (full_path : string) : string :=
  default "" (last (split "." full_path)).

(** [MIME_TYPES.get(extension, "application/octet-stream")] *)
Definition mime_type (full_path : string) : string :=
  dict_get_default MIME_TYPES (extension full_path) "application/octet-stream".

(** [path[1:]] *)
Definition drop_first (path : string) : string :=
  match path with
  | EmptyString => ""
  | String _ rest => rest
  end.

Inductive HTTPStatus : Type :=
| OK
| NOT_FOUND.

(** What the operating system may raise under [process_request]:
    [os.path.commonpath] on a relative and an absolute path, and [open] or
    [read] on a file. *)
Inductive os_error : Type :=
| ValueError
| OSError.

(** The answer to the HTTP layer: [None] (carry on with the WebSocket
    handshake) or a status, the headers and the body.  A body is a string
    of bytes. *)
Definition response : Type :=
  option (HTTPStatus * list (string * string) * string).

Section StaticFiles.

(** The request headers with their membership test, and the file system
    behind [os.path] and [open]. *)
Variable Headers : Type.
Variable header_in : string → Headers → bool.
Variable join : string → string → string.
Variable realpath : string → string.
Variable commonpath : string → string → os_error + string.
Variable path_exists : string → bool.
Variable isfile : string → bool.
Variable read_file : string → os_error + string.

(** [process_request(sever_root, path, request_headers)]; the two [print]
    calls are left out. *)
Definition process_request (sever_root path : string)
    (request_headers : Headers) : os_error + response :=
  if header_in "Upgrade" request_headers then inr None
  else
    let path := if decide (path = "/") then "/index.html" else path in
    let response_headers :=
      [("Server", "asyncio websocket server"); ("Connection", "close")] in
    let full_path := realpath (join sever_root (drop_first path)) in
    match commonpath sever_root full_path with
    | inl e => inl e
    | inr common =>
        if bool_decide (common ≠ sever_root)
           || negb (path_exists full_path) || negb (isfile full_path)
        then inr (Some (NOT_FOUND, [], "404 NOT FOUND"))
        else
          let response_headers :=
            response_headers ++ [("Content-Type", mime_type full_path)] in
          match read_file full_path with
          | inl e => inl e
          | inr body =>
              let response_headers :=
                response_headers
                  ++ [("Content-Length", pretty (String.length body))] in
              inr (Some (OK, response_headers, body))
          end
    end.

End StaticFiles.

(** ** The connection handler *)

(** [ws_handler(rpc, websocket, path)].  [serve] stands for the [try] block
    around the message loop: it returns when the loop ends, also when
    [ConnectionClosed] ended it, and raises what the block lets through.
    [_remove_bus] comes after the block, not in a [finally]. *)
Definition ws_handler (serve : M RPC unit) (websocket : Peer) : M RPC unit :=
  RPC_add_bus websocket;;
  serve;;
  RPC_remove_bus websocket.

(** ** The vocabulary of the properties *)

(** The members the loop of [__init__] takes as methods, and those it takes
    as properties: the tests are an [if]/[elif] chain, so a member counts
    for the first tag it carries. *)
Definition method_members (cls : list (string * member)) : list _Method :=
  omap (λ nm, RPC_METHOD nm.2) cls.

Definition property_members (cls : list (string * member)) : list _Property :=
  omap (λ nm, match RPC_METHOD nm.2, RPC_SIGNAL nm.2 with
              | None, None => RPC_PROPERTY nm.2
              | _, _ => None
              end) cls.

(** The loop invariant of the property scan: the getter set is the set of
    getters of the list, and the list holds none twice. *)
Definition scan_inv (seen : list _Property) (sc : scan) : Prop :=
  NoDup (fget <$> sc_properties sc)
  ∧ (∀ g, g ∈ sc_properties_getters sc ↔ g ∈ fget <$> sc_properties sc)
  ∧ (∀ g, g ∈ fget <$> sc_properties sc ↔ g ∈ fget <$> seen).

(** The table after the loop of [register_interface] over the methods
    [ms]. *)
Definition bind_methods (nm : string) (interface : nat) (ms : list _Method)
    (d : gmap string (function * nat)) : gmap string (function * nat) :=
  foldl (λ d m, <[nm +:+ "." +:+ m_name m := (m_fn m, interface)]> d) d ms.

(** The peers whose send went through, and those whose send failed, in a
    run of the loop. *)
Definition sent (evs : list (Peer * bool)) : list Peer :=
  (filter (λ ev, ev.2 = true) evs).*1.

Definition failed (evs : list (Peer * bool)) : list Peer :=
  (filter (λ ev, ev.2 = false) evs).*1.

(** [TimeService] with the peers 1 and 2 on its bus. *)
Definition two_peers : ServiceInterface :=
  run_callback (_add_bus 2) (run_callback (_add_bus 1) TimeService_init).

Definition alarm_clock_signal : _Signal := Signal "alarm_clock" fn_alarm_clock.

(** The property the class of [o] has under the attribute name [n]. *)
Definition property_attr (o : ServiceInterface) (n : string) : option _Property :=
  class_attr (members o) n ≫= RPC_PROPERTY.

(** [n] names nothing that [o], its class or the framework has: neither an
    attribute of the class, one of the three data descriptors every class
    has, nor an attribute the framework works with.  [setattr] stores such
    a name in the instance [__dict__]. *)
Definition plain_name (o : ServiceInterface) (n : string) : Prop :=
  class_attr (members o) n = None
  ∧ (n ∉ ["__weakref__"; "__class__"; "__dict__"])
  ∧ (n ∉ framework_attrs).

(** [rpc] is a state of the registry [rpc0]: the same names for the same
    objects of the same classes with the same property lists, whatever the
    buses and the attribute values have become. *)
Definition same_classes (rpc rpc0 : RPC) : Prop :=
  interfaces rpc = interfaces rpc0
  ∧ ∀ addr o0, store rpc0 !! addr = Some o0 →
      ∃ o, store rpc !! addr = Some o
           ∧ members o = members o0
           ∧ _get_properties o = _get_properties o0.

(** Whether a dot occurs in a string. *)
Fixpoint has_dot (s : string) : bool :=
  match s with
  | EmptyString => false
  | String c s' => bool_decide (c = "."%char) || has_dot s'
  end.

(** [p] is [e], or ends in a dot followed by [e]. *)
Definition has_extension (p e : string) : Prop :=
  p = e ∨ ∃ q, p = q +:+ "." +:+ e.

(** The binding the loop of [register_interface] leaves for the key [k]:
    that of the last method of [ms] whose qualified name is [k]. *)
Fixpoint bound_by (nm : string) (interface : nat) (ms : list _Method)
    (k : string) : option (function * nat) :=
  match ms with
  | [] => None
  | m :: ms' =>
      match bound_by nm interface ms' k with
      | Some b => Some b
      | None =>
          if decide (nm +:+ "." +:+ m_name m = k)
          then Some (m_fn m, interface) else None
      end
  end.

(** The entry [Introspect] gives for every interface. *)
Definition empty_description : json :=
  JObject [("methods", JObject []); ("signals", JObject []);
           ("properties", JObject [])].

(** The members the loop of [__init__] takes as signals: those with the
    signal tag and without the method tag. *)
Definition signal_members (cls : list (string * member)) : list _Signal :=
  omap (λ nm, match RPC_METHOD nm.2 with
              | None => RPC_SIGNAL nm.2
              | Some _ => None
              end) cls.

(** [p] stands in [seen] before any other property with its getter. *)
Definition first_with_getter (p : _Property) (seen : list _Property) : Prop :=
  ∃ l1 l2, seen = l1 ++ p :: l2 ∧ fget p ∉ fget <$> l1.

(** The invariant of the scan as to which properties it keeps. *)
Definition kept_inv (seen : list _Property) (sc : scan) : Prop :=
  scan_inv seen sc
  ∧ sc_properties sc `sublist_of` seen
  ∧ ∀ p, p ∈ sc_properties sc → first_with_getter p seen.

(** The bus of the object at [a], if there is one. *)
Definition bus_at (rpc : RPC) (a : nat) : option (gset nat) :=
  __bus <$> store rpc !! a.

(** The object at a registered address after the loop of [RPC._add_bus],
    and after the loop of [RPC._remove_bus]. *)
Definition added (ws : Peer) (l : list nat) (a : nat) (o : ServiceInterface)
  : ServiceInterface :=
  if decide (a ∈ l) then set_bus o ({[ws]} ∪ __bus o) else o.

Definition removed (self : nat) (ws : Peer) (l : list nat) (a : nat)
    (o : ServiceInterface) : ServiceInterface :=
  if decide (a ∈ l)
  then if decide (a = self) then set_bus o ({[ws]} ∪ __bus o)
       else set_bus o (__bus o ∖ {[ws]})
  else o.





(** * Properties *)

(** ** Construction of the descriptor lists *)

Lemma scan_member_inv seen sc nm :
  scan_inv seen sc →
  scan_inv (seen ++ property_members [nm]) (scan_member sc nm).
Proof.
  intros (Hnd & Hset & Hseen).
  unfold scan_member, property_members; simpl.
  destruct (RPC_METHOD nm.2) as [m|]; simpl.
  { rewrite app_nil_r. done. }
  destruct (RPC_SIGNAL nm.2) as [s|]; simpl.
  { rewrite app_nil_r. done. }
  destruct (RPC_PROPERTY nm.2) as [p|]; simpl.
  2: { rewrite app_nil_r. done. }
  destruct (decide (fget p ∈ sc_properties_getters sc)) as [Hin|Hnin].
  - split_and!; [done..|].
    intros g. rewrite fmap_app, elem_of_app, <- Hseen. simpl.
    rewrite list_elem_of_singleton. split; [tauto|].
    intros [?| ->]; [done|]. by apply Hset.
  - unfold scan_inv. cbn [sc_properties sc_properties_getters]. split_and!.
    + rewrite fmap_app. simpl. apply NoDup_app. split_and!; [done| |].
      * intros g Hg Hg'. apply list_elem_of_singleton in Hg'. subst g.
        apply Hnin, Hset, Hg.
      * apply NoDup_singleton.
    + intros g. rewrite fmap_app, elem_of_app, elem_of_union, elem_of_singleton.
      simpl. rewrite list_elem_of_singleton, Hset. tauto.
    + intros g. rewrite !fmap_app, !elem_of_app, Hseen. done.
Qed.

Lemma property_members_app cls1 cls2 :
  property_members (cls1 ++ cls2) = property_members cls1 ++ property_members cls2.
Proof. unfold property_members. apply omap_app. Qed.

Lemma foldl_scan_inv cls seen sc :
  scan_inv seen sc →
  scan_inv (seen ++ property_members cls) (foldl scan_member sc cls).
Proof.
  revert seen sc. induction cls as [|nm cls IH]; intros seen sc Hinv.
  - unfold property_members. simpl. by rewrite app_nil_r.
  - change (nm :: cls) with ([nm] ++ cls) at 1.
    rewrite (property_members_app [nm] cls), app_assoc. cbn [foldl].
    apply IH, scan_member_inv, Hinv.
Qed.

Lemma scan_members_inv cls : scan_inv (property_members cls) (scan_members cls).
Proof.
  apply (foldl_scan_inv cls []). unfold scan_inv. simpl.
  split_and!; [constructor|set_solver..].
Qed.

(** The method list is the list of the method-tagged members, in order. *)
Lemma foldl_scan_methods cls sc :
  sc_methods (foldl scan_member sc cls) = sc_methods sc ++ method_members cls.
Proof.
  revert sc. induction cls as [|nm cls IH]; intros sc; simpl.
  - by rewrite app_nil_r.
  - rewrite IH. unfold scan_member, method_members. simpl.
    destruct (RPC_METHOD nm.2) as [m|]; simpl.
    + by rewrite <- app_assoc.
    + destruct (RPC_SIGNAL nm.2); simpl; [done|].
      destruct (RPC_PROPERTY nm.2); simpl; [|done].
      by case_decide.
Qed.



(** C9: in the property list [__init__] builds, no two entries share a
    getter, and a getter is in the list exactly when some property member
    of the class has it: however often the scan meets a getter, one entry
    stands for it. *)
Theorem property_getters_unique (nm : string) (cls : list (string * member)) :
  NoDup (fget <$> _get_properties (ServiceInterface_init nm cls))
  ∧ ∀ g, g ∈ fget <$> _get_properties (ServiceInterface_init nm cls)
         ↔ g ∈ fget <$> property_members cls.
Proof.
  destruct (scan_members_inv cls) as (Hnd & _ & Hseen).
  unfold _get_properties. simpl. split; [exact Hnd|exact Hseen].
Qed.

(** ** Registration and the dispatch table *)

Lemma set_store_id rpc : set_store rpc (store rpc) = rpc.
Proof. by destruct rpc. Qed.

Lemma at_object_get rpc addr o :
  store rpc !! addr = Some o → at_object addr get_state rpc = (Return o, rpc).
Proof.
  intros Ho. unfold at_object, get_state. rewrite Ho. simpl.
  by rewrite insert_id, set_store_id.
Qed.

Lemma at_object_None {A} rpc addr (m : M ServiceInterface A) :
  store rpc !! addr = None → at_object addr m rpc = (Raise AttributeError, rpc).
Proof. intros Ho. unfold at_object. by rewrite Ho. Qed.

Lemma bind_methods_cons nm interface m ms d :
  bind_methods nm interface (m :: ms) d
  = bind_methods nm interface ms (<[nm +:+ "." +:+ m_name m := (m_fn m, interface)]> d).
Proof. reflexivity. Qed.

Lemma for_each_add_method nm interface ms rpc :
  for_each ms (λ method,
    let bound_method := (m_fn method, interface) in
    let method_name := nm +:+ "." +:+ m_name method in
    add_method bound_method method_name) rpc
  = (Return tt,
     Registry (store rpc) (self_id rpc)
              (bind_methods nm interface ms (dispatcher rpc))
              (interfaces rpc) (bus rpc)).
Proof.
  revert rpc. induction ms as [|m ms IH]; intros rpc.
  - by destruct rpc.
  - cbn [for_each]. unfold mbind, M_bind, add_method at 1, modify_state.
    rewrite IH. reflexivity.
Qed.

Lemma register_interface_eq rpc interface o :
  store rpc !! interface = Some o →
  register_interface interface rpc
  = (Return tt,
     Registry (store rpc) (self_id rpc)
              (bind_methods (name o) interface (_get_methods o) (dispatcher rpc))
              (dict_set (interfaces rpc) (name o) interface) (bus rpc)).
Proof.
  intros Ho. unfold register_interface, mbind, M_bind.
  rewrite (at_object_get _ _ _ Ho). unfold modify_state at 1.
  by rewrite for_each_add_method.
Qed.

Lemma bind_methods_dom nm interface ms d k :
  k ∈ dom (bind_methods nm interface ms d)
  ↔ k ∈ dom d ∨ ∃ m, m ∈ ms ∧ k = nm +:+ "." +:+ m_name m.
Proof.
  revert d. induction ms as [|m ms IH]; intros d.
  - split; [by left|]. intros [?|(m & Hm & _)]; [done|]. by apply elem_of_nil in Hm.
  - rewrite bind_methods_cons, IH, dom_insert, elem_of_union, elem_of_singleton.
    split.
    + intros [[->|?]|(m' & Hm' & ->)].
      * right. exists m. split; [left|done].
      * by left.
      * right. exists m'. split; [by right|done].
    + intros [?|(m' & Hm' & ->)]; [by left; right|].
      apply elem_of_cons in Hm' as [->|Hm'].
      * by left; left.
      * right. by exists m'.
Qed.









(** ** Signal broadcast *)

(** One task per peer of the bus, whatever the signal and its result. *)
Lemma handle_signal_peers self sig result :
  t_bus <$> _handle_signal self sig result = elements (__bus self).
Proof.
  unfold _handle_signal. rewrite <- list_fmap_compose.
  apply list_fmap_id.
Qed.

Lemma handle_signal_message self sig result t :
  t ∈ _handle_signal self sig result → t_message t = signal_message.
Proof.
  unfold _handle_signal. intros Ht.
  apply list_elem_of_fmap in Ht as (p & Ht & _). by subst t.
Qed.

(** The message does not depend on the signal nor on the result. *)
Lemma handle_signal_constant self sig1 result1 sig2 result2 :
  _handle_signal self sig1 result1 = _handle_signal self sig2 result2.
Proof. reflexivity. Qed.

(** X1: [_handle_signal] schedules one send for every peer of the bus,
    none twice, and none for a peer that is not on the bus. *)
Theorem handle_signal_one_task_per_peer (self : ServiceInterface)
    (sig : _Signal) (result : value) :
  NoDup (t_bus <$> _handle_signal self sig result)
  ∧ ∀ p, p ∈ t_bus <$> _handle_signal self sig result ↔ p ∈ __bus self.
Proof.
  rewrite handle_signal_peers. split; [apply NoDup_elements|].
  intros p. apply elem_of_elements.
Qed.

(** The done-callback leaves the bus without the peer when the send raised,
    also when the peer was gone already and [set.remove] raises in turn. *)
Lemma resolve_task_bus self p exception :
  __bus (run_callback (resolve_task p exception) self)
  = match exception with
    | Some _ => __bus self ∖ {[p]}
    | None => __bus self
    end.
Proof.
  unfold run_callback, resolve_task. destruct exception as [e|]; [|done].
  unfold _remove_bus. case_decide; simpl; [done|]. set_solver.
Qed.

Lemma step_sound l ev l' :
  step l ev l' →
  ev.1 :: (t_bus <$> l_pending l') ≡ₚ t_bus <$> l_pending l
  ∧ __bus (l_self l') = __bus (l_self l) ∖ list_to_set (failed [ev])
  ∧ (l_delivered l').*1 = (l_delivered l).*1 ++ sent [ev]
  ∧ (∀ pm, pm ∈ l_delivered l' →
           pm ∈ l_delivered l ∨ Task pm.1 pm.2 ∈ l_pending l).
Proof.
  destruct 1 as [self t before after log|self t before after log e];
    cbn [l_self l_pending l_delivered fst snd].
  - split_and!.
    + rewrite !fmap_app, fmap_cons. by rewrite Permutation_middle.
    + rewrite resolve_task_bus. unfold failed. simpl. set_solver.
    + rewrite fmap_app. done.
    + intros pm [?| ->%list_elem_of_singleton]%elem_of_app; [by left|].
      right. simpl. destruct t. set_solver.
  - split_and!.
    + rewrite !fmap_app, fmap_cons. by rewrite Permutation_middle.
    + rewrite resolve_task_bus. unfold failed. simpl. set_solver.
    + by rewrite app_nil_r.
    + intros pm ?. by left.
Qed.

Lemma failed_cons ev evs : failed (ev :: evs) = failed [ev] ++ failed evs.
Proof.
  unfold failed. rewrite <- fmap_app. f_equal.
  by rewrite <- filter_app.
Qed.

Lemma sent_cons ev evs : sent (ev :: evs) = sent [ev] ++ sent evs.
Proof.
  unfold sent. rewrite <- fmap_app. f_equal.
  by rewrite <- filter_app.
Qed.

(** What a run does, by induction on the run: every event completes one
    pending task; the bus loses the peers whose send failed and no other;
    the peers receive, in the order of the events, the messages of the
    tasks whose send went through. *)
Lemma steps_sound l evs l' :
  steps l evs l' →
  evs.*1 ++ (t_bus <$> l_pending l') ≡ₚ t_bus <$> l_pending l
  ∧ __bus (l_self l') = __bus (l_self l) ∖ list_to_set (failed evs)
  ∧ (l_delivered l').*1 = (l_delivered l).*1 ++ sent evs
  ∧ (∀ pm, pm ∈ l_delivered l' →
           pm ∈ l_delivered l ∨ Task pm.1 pm.2 ∈ l_pending l).
Proof.
  induction 1 as [l|l1 ev l2 evs l3 Hstep Hsteps IH].
  - split_and!; [done| |by rewrite app_nil_r|by left].
    unfold failed. simpl. set_solver.
  - destruct (step_sound _ _ _ Hstep) as (Hp1 & Hb1 & Hd1 & Hm1).
    destruct IH as (Hp2 & Hb2 & Hd2 & Hm2). split_and!.
    + rewrite fmap_cons. simpl. rewrite <- Hp1. by constructor.
    + rewrite Hb2, Hb1, (failed_cons ev evs), list_to_set_app_L. set_solver.
    + rewrite Hd2, Hd1, (sent_cons ev evs). by rewrite app_assoc.
    + intros pm [Hpm| Hpm]%Hm2; [by apply Hm1|].
      right. assert (Hin : Task pm.1 pm.2 ∈ l_pending l2) by done.
      clear -Hstep Hin. revert Hin.
      destruct Hstep; simpl; set_solver.
Qed.

(** When the one peer [f] fails and the others do not, the peers that were
    sent to are the events' peers other than [f]. *)
Lemma sent_only_failure (f : Peer) evs :
  (∀ p ok, (p, ok) ∈ evs → ok = false ↔ p = f) →
  sent evs = filter (λ p, p ≠ f) evs.*1
  ∧ ∀ p, p ∈ failed evs ↔ p = f ∧ p ∈ evs.*1.
Proof.
  induction evs as [|[p ok] evs IH]; intros Hev.
  - split; [done|]. intros p. unfold failed. simpl. set_solver.
  - destruct IH as [IH1 IH2].
    { intros p' ok' Hin. apply Hev. by right. }
    pose proof (Hev p ok (list_elem_of_here _ _)) as Hp.
    rewrite sent_cons, IH1, fmap_cons, filter_cons. simpl.
    split.
    + unfold sent. rewrite filter_cons. simpl.
      destruct ok; simpl; case_decide as Hpf; try done.
      * by apply Hp in Hpf.
      * destruct Hpf. by apply Hp.
    + intros q. rewrite failed_cons, elem_of_app, IH2, elem_of_cons.
      unfold failed. rewrite filter_cons. simpl.
      destruct ok; simpl; rewrite ?list_elem_of_singleton.
      * rewrite elem_of_nil. split.
        -- intros [[]|[-> ?]]. eauto.
        -- intros [-> [->|?]]; [|by right]. by destruct Hp as [_ ?%symmetry].
      * assert (p = f) as -> by (by apply Hp). split; [|tauto].
        intros [->|[-> ?]]; eauto.
Qed.

Lemma signal_wrapped_returns body sig args self result self1 :
  body (s_fn sig) args self = (Return result, self1) →
  signal_wrapped body sig args (Loop self [] [])
  = (Return result, Loop self1 (_handle_signal self1 sig result) []).
Proof. intros Hbody. unfold signal_wrapped. simpl. by rewrite Hbody. Qed.

(** A signal is fired on an interface whose bus holds [f] among its N
    peers; the send to [f] fails and every other send goes through, in
    whatever order the tasks complete.  Then the call that fired the signal
    has returned the handler's result, [f] is gone from the bus and no
    other peer is, and the N-1 others have each been sent to once: the
    text of [_handle_signal]. *)
Lemma broadcast_one_failure
    (body : function → list value → M ServiceInterface value)
    (sig : _Signal) (args : list value) (self self1 : ServiceInterface)
    (result : value) (f : Peer) (evs : list (Peer * bool)) (l' : loop) :
  body (s_fn sig) args self = (Return result, self1) →
  f ∈ __bus self1 →
  steps (signal_wrapped body sig args (Loop self [] [])).2 evs l' →
  l_pending l' = [] →
  (∀ p ok, (p, ok) ∈ evs → ok = false ↔ p = f) →
  (signal_wrapped body sig args (Loop self [] [])).1 = Return result
  ∧ __bus (l_self l') = __bus self1 ∖ {[f]}
  ∧ (l_delivered l').*1 ≡ₚ elements (__bus self1 ∖ {[f]})
  ∧ S (List.length (l_delivered l')) = size (__bus self1)
  ∧ ∀ pm, pm ∈ l_delivered l' → pm.2 = signal_message.
Proof.
  intros Hbody Hf Hrun Hdone Hev.
  rewrite (signal_wrapped_returns _ _ _ _ _ _ Hbody) in *. simpl in Hrun.
  destruct (steps_sound _ _ _ Hrun) as (Hperm & Hbus & Hlog & Hmsg).
  simpl in Hperm, Hbus, Hlog, Hmsg.
  rewrite Hdone, handle_signal_peers in Hperm. simpl in Hperm.
  rewrite app_nil_r in Hperm.
  destruct (sent_only_failure f evs Hev) as [Hsent Hfailed].
  assert (Hfin : f ∈ evs.*1).
  { rewrite Hperm. by apply elem_of_elements. }
  assert (Hset : list_to_set (failed evs) = ({[f]} : gset Peer)).
  { apply set_eq. intros p. rewrite elem_of_list_to_set, Hfailed, elem_of_singleton.
    split; [tauto|]. by intros ->. }
  assert (Hrecv : (l_delivered l').*1 ≡ₚ elements (__bus self1 ∖ {[f]})).
  { rewrite Hlog, Hsent, Hperm. apply NoDup_Permutation.
    - apply NoDup_filter, NoDup_elements.
    - apply NoDup_elements.
    - intros p. rewrite list_elem_of_filter, !elem_of_elements,
        elem_of_difference, elem_of_singleton. tauto. }
  split_and!.
  - done.
  - by rewrite Hbus, Hset.
  - done.
  - rewrite <- (length_fmap fst), Hrecv.
    change (List.length (elements (__bus self1 ∖ {[f]})))
      with (size (__bus self1 ∖ {[f]})).
    assert (Hsplit : __bus self1 = {[f]} ∪ __bus self1 ∖ {[f]}).
    { apply set_eq. intros p.
      rewrite elem_of_union, elem_of_difference, elem_of_singleton.
      destruct (decide (p = f)) as [->|]; tauto. }
    rewrite Hsplit at 2.
    rewrite (size_union (C := gset nat) {[f]} (__bus self1 ∖ {[f]})) by set_solver.
    by rewrite size_singleton.
  - intros pm [[]%elem_of_nil|Hin]%Hmsg.
    by apply handle_signal_message in Hin.
Qed.

(** C6, on [TimeService] with the peers 1 and 2 on its bus: [alarm_clock]
    is fired, the send to peer 1 fails and the send to peer 2 goes
    through.  The call that fired the signal has returned ["ALARM"] with
    the two sends still pending; such a run exists, and after every such
    run peer 1 is gone from the bus and peer 2 is still on it.  What peer 2
    has received, though, is the fixed text of [_handle_signal], which
    names neither the signal nor its result. *)
Theorem broadcast_survivor_receives_fixed_text :
  signal_wrapped program_body alarm_clock_signal [] (Loop two_peers [] [])
  = (Return (VStr "ALARM"),
     Loop two_peers [Task 2 signal_message; Task 1 signal_message] [])
  ∧ (∃ l', steps (Loop two_peers
                    [Task 2 signal_message; Task 1 signal_message] [])
                 [(1%nat, false); (2%nat, true)] l')
  ∧ (∀ l', steps (Loop two_peers
                    [Task 2 signal_message; Task 1 signal_message] [])
                 [(1%nat, false); (2%nat, true)] l' →
           l_pending l' = []
           ∧ __bus (l_self l') = {[2%nat]}
           ∧ l_delivered l' = [(2%nat, signal_message)])
  ∧ String.index 0 "ee.arti.TimeService.alarm_clock" signal_message = None
  ∧ String.index 0 "ALARM" signal_message = None.
Proof.
  assert (Hfire :
    signal_wrapped program_body alarm_clock_signal [] (Loop two_peers [] [])
    = (Return (VStr "ALARM"),
       Loop two_peers [Task 2 signal_message; Task 1 signal_message] [])).
  { vm_compute. reflexivity. }
  split_and!; [exact Hfire| | |vm_compute; reflexivity..].
  - eexists. eapply steps_cons.
    + apply (step_failed two_peers (Task 1 signal_message)
               [Task 2 signal_message] [] [] "ConnectionClosed").
    + eapply steps_cons.
      * apply (step_sent _ (Task 2 signal_message) [] [] []).
      * apply steps_nil.
  - intros l' Hrun.
    assert (Hdone : l_pending l' = []).
    { destruct (steps_sound _ _ _ Hrun) as (Hperm & _).
      apply Permutation_length in Hperm. simpl in Hperm.
      rewrite length_fmap in Hperm.
      destruct (l_pending l'); [done|simpl in Hperm; lia]. }
    destruct (broadcast_one_failure program_body alarm_clock_signal []
                two_peers two_peers (VStr "ALARM") 1%nat
                [(1%nat, false); (2%nat, true)] l')
      as (_ & Hbus & Hrecv & _ & Hmsg).
    + reflexivity.
    + apply (bool_decide_unpack _). vm_compute. exact I.
    + rewrite Hfire. exact Hrun.
    + exact Hdone.
    + intros p ok Hin.
      apply elem_of_cons in Hin as [Hin|Hin]; [by injection Hin as -> ->|].
      apply elem_of_cons in Hin as [Hin|Hin]; [by injection Hin as -> ->|].
      by apply elem_of_nil in Hin.
    + split_and!; [exact Hdone| |].
      * rewrite Hbus. apply (bool_decide_unpack _). vm_compute. exact I.
      * assert (Hel : elements (__bus two_peers ∖ {[1%nat]}) = [2%nat])
          by (vm_compute; reflexivity).
        rewrite Hel in Hrecv. apply Permutation_singleton_r in Hrecv.
        destruct (l_delivered l') as [|[p m] [|? ?]]; simplify_eq/=.
        f_equal. f_equal. apply (Hmsg (2%nat, m)). left.
Qed.

(** C1, at the registry of [main] with the peer 7 connected: firing
    [alarm_clock] runs the handler, which returns ["ALARM"], and schedules
    one send to the peer; the text sent is the fixed literal, which names
    neither the signal nor its result. *)
Theorem alarm_clock_sends_fixed_text :
  ∃ ts,
    store (RPC_add_bus 7 main_rpc).2 !! main_time_service = Some ts
    ∧ __bus ts = {[7%nat]}
    ∧ signal_wrapped program_body alarm_clock_signal [] (Loop ts [] [])
      = (Return (VStr "ALARM"), Loop ts [Task 7 signal_message] [])
    ∧ String.index 0 "ee.arti.TimeService.alarm_clock" signal_message = None
    ∧ String.index 0 "ALARM" signal_message = None.
Proof.
  exists (run_callback (_add_bus 7) TimeService_init).
  split_and!; vm_compute; reflexivity.
Qed.

(** ** The property meta-methods *)

Section MetaMethodFacts.

Variable body : function → list value → M ServiceInterface value.

Lemma getattr_property o n p f :
  property_attr o n = Some p → fget p = Some f →
  getattr_str body n o = body f [] o.
Proof.
  unfold property_attr, getattr_str. intros Hp Hf.
  destruct (class_attr (members o) n) as [[? ? [p'|]]|]; simplify_eq/=.
  by rewrite Hf.
Qed.

Lemma getattr_instance o n v :
  property_attr o n = None → attrs o !! n = Some v →
  getattr_str body n o = (Return v, o).
Proof.
  unfold property_attr, getattr_str. intros Hp Hv.
  destruct (class_attr (members o) n) as [[? ? [p'|]]|]; simplify_eq/=;
    by rewrite Hv.
Qed.

Lemma getattr_missing o n :
  class_attr (members o) n = None → attrs o !! n = None →
  getattr_str body n o = (Raise AttributeError, o).
Proof. unfold getattr_str. by intros -> ->. Qed.

Lemma setattr_property o n p f v :
  property_attr o n = Some p → fset p = Some f →
  setattr body n v o = Some ((body f [v];; mret tt) o).
Proof.
  unfold property_attr, setattr. intros Hp Hf.
  destruct (class_attr (members o) n) as [[? ? [p'|]]|]; simplify_eq/=.
  by rewrite Hf.
Qed.

Lemma setattr_read_only o n p v :
  property_attr o n = Some p → fset p = None →
  setattr body n v o = Some (Raise AttributeError, o).
Proof.
  unfold property_attr, setattr. intros Hp Hf.
  destruct (class_attr (members o) n) as [[? ? [p'|]]|]; simplify_eq/=.
  by rewrite Hf.
Qed.

Lemma setattr_weakref o v :
  property_attr o "__weakref__" = None →
  setattr body "__weakref__" v o = Some (Raise AttributeError, o).
Proof.
  unfold property_attr, setattr. intros Hp.
  by destruct (class_attr (members o) "__weakref__") as [[? ? [p'|]]|];
    simplify_eq/=.
Qed.

Lemma setattr_class_dict o n v :
  property_attr o n = None → n ∈ ["__class__"; "__dict__"] →
  (∀ d, v ≠ VObject d) →
  setattr body n v o = Some (Raise TypeError, o).
Proof.
  unfold property_attr, setattr. intros Hp Hn Hv.
  assert (Hw : n ≠ "__weakref__").
  { intros ->. revert Hn. apply (bool_decide_unpack _). by vm_compute. }
  destruct (class_attr (members o) n) as [[? ? [p'|]]|]; simplify_eq/=;
    rewrite (decide_False (P := n = "__weakref__")) by done;
    rewrite decide_True by done;
    destruct v; try done; by destruct (Hv description).
Qed.

Lemma setattr_plain o n v :
  plain_name o n →
  setattr body n v o = Some (Return tt, set_attrs o (<[n := v]> (attrs o))).
Proof.
  intros (Hc & Hs & Hf). unfold setattr. rewrite Hc.
  rewrite decide_False by (intros ->; apply Hs; set_solver).
  rewrite decide_False by (intros Hn; apply Hs; set_solver).
  by rewrite decide_False by done.
Qed.

Lemma interfaces_getitem_Some rpc iname addr :
  dict_get (interfaces rpc) iname = Some addr →
  interfaces_getitem iname rpc = (Return addr, rpc).
Proof. unfold interfaces_getitem. by intros ->. Qed.

Lemma interfaces_getitem_None rpc iname :
  dict_get (interfaces rpc) iname = None →
  interfaces_getitem iname rpc = (Raise KeyError, rpc).
Proof. unfold interfaces_getitem. by intros ->. Qed.

Lemma get_prop_at rpc iname n addr o :
  dict_get (interfaces rpc) iname = Some addr → store rpc !! addr = Some o →
  get_prop body iname n rpc
  = ((getattr_str body n o).1,
     set_store rpc (<[addr := (getattr_str body n o).2]> (store rpc))).
Proof.
  intros Hi Ho. unfold get_prop, mbind, M_bind.
  rewrite (interfaces_getitem_Some _ _ _ Hi). unfold at_object. by rewrite Ho.
Qed.

Lemma set_prop_at rpc iname n v addr o r :
  dict_get (interfaces rpc) iname = Some addr → store rpc !! addr = Some o →
  setattr body n v o = Some r →
  set_prop body iname n v rpc
  = Some (match r.1 with
          | Return _ => Return VNone
          | Raise e => Raise e
          end,
          set_store rpc (<[addr := r.2]> (store rpc))).
Proof.
  intros Hi Ho Hr. unfold set_prop.
  rewrite (interfaces_getitem_Some _ _ _ Hi), Ho. simpl. by rewrite Hr.
Qed.

Lemma store_unchanged rpc addr o :
  store rpc !! addr = Some o → set_store rpc (<[addr := o]> (store rpc)) = rpc.
Proof. intros Ho. by rewrite insert_id, set_store_id. Qed.

(** Get after Set, for a property whose setter stores what its getter
    reads. *)
Lemma get_after_set_generic rpc iname addr o n p s g v r o' :
  dict_get (interfaces rpc) iname = Some addr → store rpc !! addr = Some o →
  property_attr o n = Some p → fset p = Some s → fget p = Some g →
  body s [v] o = (Return r, o') → members o' = members o →
  body g [] o' = (Return v, o') →
  ∃ rpc', set_prop body iname n v rpc = Some (Return VNone, rpc')
          ∧ get_prop body iname n rpc' = (Return v, rpc').
Proof.
  intros Hi Ho Hp Hs Hg Hset Hmem Hget.
  set (rpc' := set_store rpc (<[addr := o']> (store rpc))).
  assert (Ho' : store rpc' !! addr = Some o') by apply lookup_insert_eq.
  assert (Hp' : property_attr o' n = Some p).
  { unfold property_attr. by rewrite Hmem. }
  exists rpc'. split.
  - rewrite (set_prop_at _ _ _ _ _ _ _ Hi Ho (setattr_property _ _ _ _ _ Hp Hs)).
    unfold mbind, M_bind. by rewrite Hset.
  - rewrite (get_prop_at rpc' _ _ _ _ Hi Ho'), (getattr_property _ _ _ _ Hp' Hg).
    rewrite Hget. cbn [fst snd].
    by rewrite (store_unchanged rpc' addr o' Ho').
Qed.

(** C5, as the code has it: [Property.Get] raises [KeyError] for a name
    that is no registered interface; on a registered interface it returns
    what the getter returns when the name is that of a property with a
    getter, returns the value of any other instance attribute of that name,
    and raises [AttributeError] when the object has no attribute of that
    name at all. *)
Theorem get_prop_outcomes (rpc : RPC) (iname n : string) :
  (dict_get (interfaces rpc) iname = None →
   get_prop body iname n rpc = (Raise KeyError, rpc))
  ∧ ∀ addr o,
      dict_get (interfaces rpc) iname = Some addr → store rpc !! addr = Some o →
      (∀ p f, property_attr o n = Some p → fget p = Some f →
         get_prop body iname n rpc
         = ((body f [] o).1,
            set_store rpc (<[addr := (body f [] o).2]> (store rpc))))
      ∧ (∀ v, property_attr o n = None → attrs o !! n = Some v →
           get_prop body iname n rpc = (Return v, rpc))
      ∧ (class_attr (members o) n = None → attrs o !! n = None →
         get_prop body iname n rpc = (Raise AttributeError, rpc)).
Proof.
  split.
  - intros Hi. unfold get_prop, mbind, M_bind.
    by rewrite (interfaces_getitem_None _ _ Hi).
  - intros addr o Hi Ho. rewrite (get_prop_at _ _ _ _ _ Hi Ho). split_and!.
    + intros p f Hp Hf. by rewrite (getattr_property _ _ _ _ Hp Hf).
    + intros v Hp Hv. rewrite (getattr_instance _ _ _ Hp Hv). simpl.
      by rewrite store_unchanged.
    + intros Hc Ha. rewrite (getattr_missing _ _ Hc Ha). simpl.
      by rewrite store_unchanged.
Qed.

(** C4, as the code has it: [Property.Set] raises [KeyError] for a name
    that is no registered interface.  On a registered interface it calls
    the setter and returns [None] when the name is that of a property with
    a setter, and raises [AttributeError] when the property has no setter.
    For a name that is no property it does what Python's attribute
    assignment does: [__weakref__] raises [AttributeError]; [__class__]
    and [__dict__] raise [TypeError] for [None], a boolean, a number and a
    string; and a name that neither the class nor the framework has is
    stored as an instance attribute, [None] is returned and nothing else
    of the object or of the registry changes. *)
Theorem set_prop_outcomes (rpc : RPC) (iname n : string) (v : value) :
  (dict_get (interfaces rpc) iname = None →
   set_prop body iname n v rpc = Some (Raise KeyError, rpc))
  ∧ ∀ addr o,
      dict_get (interfaces rpc) iname = Some addr → store rpc !! addr = Some o →
      (∀ p f r o', property_attr o n = Some p → fset p = Some f →
         body f [v] o = (Return r, o') →
         set_prop body iname n v rpc
         = Some (Return VNone, set_store rpc (<[addr := o']> (store rpc))))
      ∧ (∀ p, property_attr o n = Some p → fset p = None →
           set_prop body iname n v rpc = Some (Raise AttributeError, rpc))
      ∧ (property_attr o n = None → n = "__weakref__" →
         set_prop body iname n v rpc = Some (Raise AttributeError, rpc))
      ∧ (property_attr o n = None → n ∈ ["__class__"; "__dict__"] →
         (∀ d, v ≠ VObject d) →
         set_prop body iname n v rpc = Some (Raise TypeError, rpc))
      ∧ (plain_name o n →
         set_prop body iname n v rpc
         = Some (Return VNone,
                 set_store rpc
                   (<[addr := set_attrs o (<[n := v]> (attrs o))]> (store rpc)))).
Proof.
  split.
  - intros Hi. unfold set_prop.
    by rewrite (interfaces_getitem_None _ _ Hi).
  - intros addr o Hi Ho. split_and!.
    + intros p f r o' Hp Hf Hbody.
      rewrite (set_prop_at _ _ _ _ _ _ _ Hi Ho (setattr_property _ _ _ _ _ Hp Hf)).
      unfold mbind, M_bind. by rewrite Hbody.
    + intros p Hp Hf.
      rewrite (set_prop_at _ _ _ _ _ _ _ Hi Ho (setattr_read_only _ _ _ _ Hp Hf)).
      simpl. by rewrite store_unchanged.
    + intros Hp ->.
      rewrite (set_prop_at _ _ _ _ _ _ _ Hi Ho (setattr_weakref _ _ Hp)).
      simpl. by rewrite store_unchanged.
    + intros Hp Hn Hv.
      rewrite (set_prop_at _ _ _ _ _ _ _ Hi Ho (setattr_class_dict _ _ _ Hp Hn Hv)).
      simpl. by rewrite store_unchanged.
    + intros Hn.
      by rewrite (set_prop_at _ _ _ _ _ _ _ Hi Ho (setattr_plain _ _ _ Hn)).
Qed.

End MetaMethodFacts.

(** *** The property meta-methods on the registry of [main] *)

Lemma get_prop_outcomes_witness :
  get_prop program_body "ee.arti.TimeService" "alarm_delay" main_rpc
  = (Return (VInt 1), main_rpc).
Proof.
  destruct (get_prop_outcomes program_body main_rpc
              "ee.arti.TimeService" "alarm_delay") as [_ Hcases].
  destruct (Hcases main_time_service TimeService_init) as (Hgetter & _ & _).
  - reflexivity.
  - vm_compute. reflexivity.
  - rewrite (Hgetter (Property "alarm_delay" (Some fn_alarm_delay_getter)
                        (Some fn_alarm_delay_setter)) fn_alarm_delay_getter);
      [|reflexivity..].
    vm_compute. reflexivity.
Defined.

(** [Property.Get] on a name that is no property of [TimeService]: the
    instance attribute behind [alarm_delay] is returned, no error is
    raised. *)
Lemma get_prop_returns_plain_attribute :
  p_name <$> _get_properties TimeService_init = ["alarm_delay"]
  ∧ property_attr TimeService_init "_alarm_delay" = None
  ∧ get_prop program_body "ee.arti.TimeService" "_alarm_delay" main_rpc
    = (Return (VInt 1), main_rpc).
Proof. split_and!; vm_compute; reflexivity. Qed.

Lemma set_prop_outcomes_witness :
  fst <$> set_prop program_body "ee.arti.TimeService" "alarm_delay" (VInt 5)
            main_rpc
  = Some (Return VNone).
Proof.
  destruct (set_prop_outcomes program_body main_rpc
              "ee.arti.TimeService" "alarm_delay" (VInt 5)) as [_ Hcases].
  destruct (Hcases main_time_service TimeService_init) as (Hsetter & _).
  - reflexivity.
  - vm_compute. reflexivity.
  - rewrite (Hsetter (Property "alarm_delay" (Some fn_alarm_delay_getter)
                        (Some fn_alarm_delay_setter)) fn_alarm_delay_setter
               VNone
               (set_attrs TimeService_init
                  (<["_alarm_delay" := VInt 5]> (attrs TimeService_init))));
      reflexivity.
Defined.

(** [Property.Set] on a name [TimeService] has no property of, nor any
    other attribute: it returns [None], and the value is there to read. *)
Lemma set_prop_accepts_unknown_name :
  p_name <$> _get_properties TimeService_init = ["alarm_delay"]
  ∧ class_attr (members TimeService_init) "volume" = None
  ∧ attrs TimeService_init !! "volume" = None
  ∧ ∃ rpc',
      set_prop program_body "ee.arti.TimeService" "volume" (VInt 3) main_rpc
      = Some (Return VNone, rpc')
      ∧ (get_prop program_body "ee.arti.TimeService" "volume" rpc').1
        = Return (VInt 3).
Proof.
  split_and!; [vm_compute; reflexivity..|].
  eexists. split; vm_compute; reflexivity.
Qed.

(** [Property.Set] at the registry of [main] on the names Python guards,
    and on names the framework works with: the first raise and leave the
    registry as it is; the others are assignments Python carries out and
    the model does not follow. *)
Lemma set_prop_guarded_names :
  set_prop program_body "ee.arti.TimeService" "__class__" (VInt 1) main_rpc
  = Some (Raise TypeError, main_rpc)
  ∧ set_prop program_body "ee.arti.TimeService" "__dict__" (VStr "x") main_rpc
    = Some (Raise TypeError, main_rpc)
  ∧ set_prop program_body "ee.arti.TimeService" "__weakref__" VNone main_rpc
    = Some (Raise AttributeError, main_rpc)
  ∧ set_prop program_body "ee.arti.TimeService" "_ServiceInterface__bus"
      (VInt 1) main_rpc = None
  ∧ set_prop program_body "jrpc" "interfaces" (VInt 1) main_rpc = None
  ∧ set_prop program_body "jrpc" "_add_bus" (VInt 1) main_rpc = None
  ∧ set_prop program_body "ee.arti.TimeService" "__dict__" (VObject "dict")
      main_rpc = None.
Proof. split_and!; vm_compute; reflexivity. Qed.

(** *** GetAll *)

(** [Property.GetAll] raises [TypeError] on every registered interface
    that has a property at all, and returns the empty mapping on one that
    has none. *)
Lemma get_all_props_cases body rpc iname addr o :
  dict_get (interfaces rpc) iname = Some addr →
  store rpc !! addr = Some o →
  get_all_props body iname rpc
  = (match _get_properties o with
     | [] => Return []
     | _ :: _ => Raise TypeError
     end, rpc).
Proof.
  intros Hi Ho. unfold get_all_props, mbind, M_bind.
  rewrite (interfaces_getitem_Some _ _ _ Hi), (at_object_get _ _ _ Ho).
  destruct (_get_properties o) as [|k ks]; [done|].
  cbn [get_all_props_loop]. unfold mbind, M_bind, at_object. rewrite Ho.
  simpl. by rewrite insert_id, set_store_id.
Qed.

(** C3, at the registry of [main]: [Property.GetAll] on [TimeService],
    which declares the property [alarm_delay], raises [TypeError], where
    [Property.Get] on that property returns its value. *)
Theorem get_all_props_raises_TypeError :
  p_name <$> _get_properties TimeService_init = ["alarm_delay"]
  ∧ (get_prop program_body "ee.arti.TimeService" "alarm_delay" main_rpc).1
    = Return (VInt 1)
  ∧ (get_all_props program_body "ee.arti.TimeService" main_rpc).1
    = Raise TypeError.
Proof. split_and!; vm_compute; reflexivity. Qed.

(** *** Get after Set *)

Lemma same_classes_refl rpc : same_classes rpc rpc.
Proof. split; [done|]. intros addr o0 Ho. by exists o0. Qed.

Lemma class_attr_elem cls n m : class_attr cls n = Some m → (n, m) ∈ cls.
Proof.
  induction cls as [|[n' m'] cls IH]; simpl; [done|].
  case_decide as Hn.
  - intros [= ->]. subst n'. left.
  - intros Hc. right. by apply IH.
Qed.

(** The only property among the members of [TimeService]. *)
Lemma TimeService_property n p :
  class_attr TimeService_members n ≫= RPC_PROPERTY = Some p →
  n = "alarm_delay"
  ∧ p = Property "alarm_delay" (Some fn_alarm_delay_getter)
                 (Some fn_alarm_delay_setter).
Proof.
  intros Hp. apply bind_Some in Hp as (m & Hc%class_attr_elem & Hm).
  assert (Hall : Forall (λ nm, ∀ q, RPC_PROPERTY nm.2 = Some q →
                   nm.1 = "alarm_delay"
                   ∧ q = Property "alarm_delay" (Some fn_alarm_delay_getter)
                                  (Some fn_alarm_delay_setter))
                        TimeService_members).
  { unfold TimeService_members, object_members, ServiceInterface_members.
    cbn [fmap list_fmap app].
    repeat (constructor; [cbn; intros q Hq; by simplify_eq|]). constructor. }
  rewrite Forall_forall in Hall. by apply (Hall (n, m)).
Qed.

Lemma main_interfaces :
  interfaces main_rpc = [("jrpc", 0%nat); ("ee.arti.TimeService", 1%nat)].
Proof. vm_compute. reflexivity. Qed.

Lemma main_aggregator :
  (λ o, (members o, _get_properties o)) <$> store main_rpc !! 0%nat
  = Some (RPC_members, []).
Proof. vm_compute. reflexivity. Qed.

Lemma main_TimeService :
  (λ o, (members o, _get_properties o)) <$> store main_rpc !! 1%nat
  = Some (TimeService_members,
          [Property "alarm_delay" (Some fn_alarm_delay_getter)
                    (Some fn_alarm_delay_setter)]).
Proof. vm_compute. reflexivity. Qed.

(** C7: in every state of the registry of [main], for every registered
    interface and every property of its list that has a setter,
    [Property.Set] with a value [v] returns [None], and [Property.Get] right
    after it returns [v]. *)
Theorem get_after_set (rpc : RPC) (iname : string) (addr : nat)
    (o : ServiceInterface) (n : string) (p : _Property) (v : value) :
  same_classes rpc main_rpc →
  dict_get (interfaces rpc) iname = Some addr →
  store rpc !! addr = Some o →
  property_attr o n = Some p →
  p ∈ _get_properties o →
  is_Some (fset p) →
  ∃ rpc', set_prop program_body iname n v rpc = Some (Return VNone, rpc')
          ∧ get_prop program_body iname n rpc' = (Return v, rpc').
Proof.
  intros [Hint Hobj] Hi Ho Hp Hin _.
  assert (Hi' := Hi). rewrite Hint, main_interfaces in Hi'. simpl in Hi'.
  pose proof main_aggregator as Hagg. pose proof main_TimeService as Hts.
  apply fmap_Some in Hagg as (agg & Hagg & [= Hagg_m Hagg_p]).
  apply fmap_Some in Hts as (ts & Hts & [= Hts_m Hts_p]).
  repeat case_decide; simplify_eq.
  - (* the aggregator: it has no property *)
    destruct (Hobj _ _ Hagg) as (o' & Ho' & _ & Hprops). simplify_eq.
    rewrite Hprops, <- Hagg_p in Hin. by apply elem_of_nil in Hin.
  - (* TimeService: the property is alarm_delay *)
    destruct (Hobj _ _ Hts) as (o' & Ho' & Hmem & _). simplify_eq.
    unfold property_attr in Hp. rewrite Hmem, <- Hts_m in Hp.
    apply TimeService_property in Hp as [-> ->].
    apply (get_after_set_generic program_body rpc _ _ o "alarm_delay"
             (Property "alarm_delay" (Some fn_alarm_delay_getter)
                       (Some fn_alarm_delay_setter))
             fn_alarm_delay_setter fn_alarm_delay_getter v VNone
             (set_attrs o (<["_alarm_delay" := v]> (attrs o))) Hi Ho).
    + unfold property_attr. rewrite Hmem, <- Hts_m. reflexivity.
    + reflexivity.
    + reflexivity.
    + reflexivity.
    + reflexivity.
    + cbn. unfold read_attr. cbn [attrs set_attrs].
      by rewrite lookup_insert_eq.
Qed.

Lemma get_after_set_witness :
  ∃ rpc',
    set_prop program_body "ee.arti.TimeService" "alarm_delay" (VInt 5) main_rpc
    = Some (Return VNone, rpc')
    ∧ get_prop program_body "ee.arti.TimeService" "alarm_delay" rpc'
      = (Return (VInt 5), rpc').
Proof.
  apply (get_after_set main_rpc "ee.arti.TimeService" main_time_service
           TimeService_init "alarm_delay"
           (Property "alarm_delay" (Some fn_alarm_delay_getter)
                     (Some fn_alarm_delay_setter)) (VInt 5)).
  - apply same_classes_refl.
  - reflexivity.
  - vm_compute. reflexivity.
  - reflexivity.
  - apply (bool_decide_unpack _). vm_compute. exact I.
  - eexists. reflexivity.
Defined.

(** ** The cascade of the aggregator's bus *)

Lemma M_bind_Return {S A B} (m : M S A) (k : A → M S B) s b s2 :
  (m ≫= k) s = (Return b, s2) →
  ∃ a s1, m s = (Return a, s1) ∧ k a s1 = (Return b, s2).
Proof.
  unfold mbind, M_bind. destruct (m s) as [[a|e] s1]; [|done]. eauto.
Qed.

Lemma at_object_Return {A} addr (m : M ServiceInterface A) rpc a rpc' :
  at_object addr m rpc = (Return a, rpc') →
  ∃ o o', store rpc !! addr = Some o ∧ m o = (Return a, o')
          ∧ rpc' = set_store rpc (<[addr := o']> (store rpc)).
Proof.
  unfold at_object. destruct (store rpc !! addr) as [o|]; [|done].
  destruct (m o) as [r o'] eqn:Hm. simpl. intros [= -> <-]. eauto.
Qed.

(** The loop of [RPC._remove_bus], run to its end: the peer is on the bus
    of the aggregator as an interface, if the aggregator is among the
    interfaces visited (or had the peer before). *)
Lemma remove_loop_keeps_peer self ws l rpc rpc' :
  for_each l (λ interface,
    if decide (interface = self)
    then at_object self (_add_bus ws)
    else at_object interface (_remove_bus ws)) rpc = (Return tt, rpc') →
  self ∈ l ∨ (∃ o, store rpc !! self = Some o ∧ ws ∈ __bus o) →
  ∃ o', store rpc' !! self = Some o' ∧ ws ∈ __bus o'.
Proof.
  revert rpc. induction l as [|i l IH]; intros rpc Hrun Hpre.
  - injection Hrun as <-. destruct Hpre as [[]%elem_of_nil|?]. done.
  - cbn [for_each] in Hrun.
    apply M_bind_Return in Hrun as ([] & rpc1 & Hbody & Hrest).
    apply (IH rpc1 Hrest). case_decide as Hi.
    + subst i. right.
      apply at_object_Return in Hbody as (o & o' & Ho & Hadd & ->).
      injection Hadd as <-. eexists. split; [apply lookup_insert_eq|].
      simpl. set_solver.
    + apply at_object_Return in Hbody as (o & o' & Ho & Hrem & ->).
      destruct Hpre as [Hin|(o1 & Ho1 & Hws)].
      * left. apply elem_of_cons in Hin as [->|Hin]; done.
      * right. exists o1. split; [|done]. simpl.
        by rewrite lookup_insert_ne.
Qed.

(** Whenever [RPC._remove_bus] returns, in a registry that holds the
    aggregator itself, the peer is on the aggregator's bus as an interface:
    what C2 shows at the registry of [main] holds in every registry. *)
Lemma remove_bus_keeps_peer rpc ws rpc' :
  RPC_remove_bus ws rpc = (Return tt, rpc') →
  self_id rpc ∈ (interfaces rpc).*2 →
  ∃ o, store rpc' !! self_id rpc = Some o ∧ ws ∈ __bus o.
Proof.
  unfold RPC_remove_bus. intros Hrun Hself.
  apply M_bind_Return in Hrun as ([] & rpc1 & Hbus & Hrun).
  apply M_bind_Return in Hrun as (rpc2 & rpc3 & Hget & Hrun).
  injection Hget as <- <-.
  case_decide; [|done]. injection Hbus as <-. simpl in Hrun.
  by apply (remove_loop_keeps_peer _ _ _ _ _ Hrun); left.
Qed.

(** The loop of [RPC._add_bus] over interfaces that are all in the store:
    it returns, every object keeps the peers it had, and the objects
    visited have the new peer. *)
Lemma add_loop_cascades self ws l rpc :
  (∀ a, a ∈ l → is_Some (store rpc !! a)) →
  ∃ rpc',
    for_each l (λ interface,
      if decide (interface = self)
      then at_object self (_add_bus ws)
      else at_object interface (_add_bus ws)) rpc = (Return tt, rpc')
    ∧ interfaces rpc' = interfaces rpc ∧ bus rpc' = bus rpc
    ∧ ∀ a o, store rpc !! a = Some o →
        ∃ o', store rpc' !! a = Some o' ∧ __bus o ⊆ __bus o'
              ∧ (a ∈ l → ws ∈ __bus o').
Proof.
  revert rpc. induction l as [|i l IH]; intros rpc Hall.
  - exists rpc. split_and!; [done..|]. intros a o Ho. exists o.
    split_and!; [done..|]. by intros []%elem_of_nil.
  - destruct (Hall i) as [oi Hoi]; [by left|].
    set (rpc1 := set_store rpc
           (<[i := set_bus oi ({[ws]} ∪ __bus oi)]> (store rpc))).
    assert (Hbody : (if decide (i = self)
                     then at_object self (_add_bus ws)
                     else at_object i (_add_bus ws)) rpc
                    = (Return tt, rpc1)).
    { case_decide; subst; unfold at_object; by rewrite Hoi. }
    destruct (IH rpc1) as (rpc' & Hrun & Hint & Hbus & Hobj).
    { intros a Ha. unfold rpc1. simpl.
      destruct (decide (i = a)) as [->|]; [by rewrite lookup_insert_eq|].
      rewrite lookup_insert_ne by done. apply Hall. by right. }
    exists rpc'. split_and!.
    + cbn [for_each]. unfold mbind, M_bind. by rewrite Hbody.
    + by rewrite Hint.
    + by rewrite Hbus.
    + intros a o Ho. destruct (decide (i = a)) as [->|Hne].
      * destruct (Hobj a (set_bus oi ({[ws]} ∪ __bus oi))) as (o' & Ho' & Hsub & _).
        { apply lookup_insert_eq. }
        simplify_eq. exists o'. split_and!; [done| |]; simpl in Hsub; set_solver.
      * destruct (Hobj a o) as (o' & Ho' & Hsub & Hin).
        { unfold rpc1. simpl. by rewrite lookup_insert_ne. }
        exists o'. split_and!; [done..|].
        intros [->|?]%elem_of_cons; [done|]. by apply Hin.
Qed.

(** X2: [RPC._add_bus], in a registry whose interfaces are all in the
    store: the call returns, the peer is in the aggregator's [bus] and on
    the bus of every registered interface. *)
Theorem add_bus_cascades (rpc : RPC) (ws : Peer) :
  (∀ a, a ∈ (interfaces rpc).*2 → is_Some (store rpc !! a)) →
  ∃ rpc',
    RPC_add_bus ws rpc = (Return tt, rpc')
    ∧ ws ∈ bus rpc'
    ∧ interfaces rpc' = interfaces rpc
    ∧ ∀ a, a ∈ (interfaces rpc).*2 →
        ∃ o, store rpc' !! a = Some o ∧ ws ∈ __bus o.
Proof.
  intros Hall.
  set (rpc1 := Registry (store rpc) (self_id rpc) (dispatcher rpc)
                        (interfaces rpc) ({[ws]} ∪ bus rpc)).
  destruct (add_loop_cascades (self_id rpc) ws (interfaces rpc).*2 rpc1 Hall)
    as (rpc' & Hrun & Hint & Hbus & Hobj).
  exists rpc'. split_and!.
  - unfold RPC_add_bus, mbind, M_bind, modify_state, get_state. exact Hrun.
  - rewrite Hbus. simpl. set_solver.
  - by rewrite Hint.
  - intros a Ha. destruct (Hall a Ha) as [o Ho].
    destruct (Hobj a o Ho) as (o' & Ho' & _ & Hin). eauto.
Qed.

Lemma add_bus_cascades_witness :
  ∃ rpc',
    RPC_add_bus 7 main_rpc = (Return tt, rpc')
    ∧ 7%nat ∈ bus rpc'
    ∧ interfaces rpc' = interfaces main_rpc
    ∧ ∀ a, a ∈ (interfaces main_rpc).*2 →
        ∃ o, store rpc' !! a = Some o ∧ 7%nat ∈ __bus o.
Proof.
  apply (add_bus_cascades main_rpc 7).
  intros a Ha. rewrite main_interfaces in Ha. simpl in Ha.
  apply elem_of_cons in Ha as [->|Ha]; [by vm_compute; eexists|].
  apply elem_of_cons in Ha as [->|Ha]; [by vm_compute; eexists|].
  by apply elem_of_nil in Ha.
Defined.

(** C2, at the registry of [main]: the peer 7 connects and disconnects.
    Both calls return; the peer has left the aggregator's [bus] and the bus
    of [TimeService], and it is still on the bus the aggregator has as an
    interface. *)
Theorem connect_then_disconnect_keeps_peer :
  ((RPC_add_bus 7;; RPC_remove_bus 7) main_rpc).1 = Return tt
  ∧ bus ((RPC_add_bus 7;; RPC_remove_bus 7) main_rpc).2 = ∅
  ∧ __bus <$> store ((RPC_add_bus 7;; RPC_remove_bus 7) main_rpc).2
                !! main_time_service = Some ∅
  ∧ __bus <$> store ((RPC_add_bus 7;; RPC_remove_bus 7) main_rpc).2
                !! self_id main_rpc = Some {[7%nat]}.
Proof. split_and!; vm_compute; reflexivity. Qed.

(** ** Introspection *)

(** The description [Introspect] returns is a function of the registered
    names alone: two registries with the same names get the same
    description, whatever their interfaces hold. *)
Lemma introspect_names_only rpc1 rpc2 :
  (interfaces rpc1).*1 = (interfaces rpc2).*1 →
  (introspect rpc1).1 = (introspect rpc2).1.
Proof.
  unfold introspect, mbind, M_bind, get_state. simpl. intros Hnames.
  do 4 f_equal.
  assert (Hfold : ∀ (l : list (string * nat)) d,
    foldl (λ d ni, dict_set d ni.1
             (JObject [("methods", JObject []); ("signals", JObject []);
                       ("properties", JObject [])])) d l
    = foldl (λ d n, dict_set d n
             (JObject [("methods", JObject []); ("signals", JObject []);
                       ("properties", JObject [])])) d l.*1).
  { induction l as [|ni l IH]; intros d; [done|]. simpl. apply IH. }
  by rewrite !Hfold, Hnames.
Qed.

(** C8, at the registry of [main]: the description lists both interfaces,
    each with empty [methods], [signals] and [properties], although
    [TimeService] has two methods, a signal and a property. *)
Theorem introspect_lists_no_member :
  (introspect main_rpc).1
  = Return (JObject [("interfaces", JObject
      [("jrpc", JObject [("methods", JObject []); ("signals", JObject []);
                         ("properties", JObject [])]);
       ("ee.arti.TimeService",
        JObject [("methods", JObject []); ("signals", JObject []);
                 ("properties", JObject [])])])])
  ∧ m_name <$> _get_methods TimeService_init = ["set_alarm"; "time"]
  ∧ s_name <$> __signals TimeService_init = ["alarm_clock"]
  ∧ p_name <$> _get_properties TimeService_init = ["alarm_delay"].
Proof. split_and!; vm_compute; reflexivity. Qed.

(** ** The static file server *)

Lemma split_nonempty sep s : split sep s ≠ [].
Proof.
  destruct s as [|c s]; simpl; [done|].
  case_decide; [done|]. by destruct (split sep s).
Qed.

Lemma split_dotless s : has_dot s = false → split "." s = [s].
Proof.
  induction s as [|c s IH]; simpl; [done|].
  intros [Hc Hs]%orb_false_elim. apply bool_decide_eq_false in Hc.
  rewrite decide_False by done. by rewrite (IH Hs).
Qed.

Lemma split_app_dot q e :
  split "." (q +:+ "." +:+ e) = split "." q ++ split "." e.
Proof.
  induction q as [|c q IH]; simpl; [done|].
  fold (String.append q (String "." e)). change (String "." e) with ("." +:+ e).
  rewrite IH. case_decide; [done|].
  destruct (split "." q) as [|w ws] eqn:Hq; [by apply split_nonempty in Hq|done].
Qed.

(** A string has no dot, or it ends in a dot followed by a piece without
    dot. *)
Lemma last_dot s :
  has_dot s = false
  ∨ ∃ q e, s = q +:+ "." +:+ e ∧ has_dot e = false.
Proof.
  induction s as [|c s [IH|(q & e & -> & He)]].
  - by left.
  - simpl. destruct (decide (c = "."%char)) as [->|Hc].
    + right. by exists "", s.
    + left. by rewrite bool_decide_false.
  - right. by exists (String c q), e.
Qed.

Lemma extension_dotless s : has_dot s = false → extension s = s.
Proof. intros Hs. unfold extension. by rewrite split_dotless. Qed.

Lemma extension_after_dot q e :
  has_dot e = false → extension (q +:+ "." +:+ e) = e.
Proof.
  intros He. unfold extension.
  by rewrite split_app_dot, (split_dotless e He), last_snoc.
Qed.

Lemma extension_spec s e :
  has_dot e = false →
  extension s = e ↔ s = e ∨ ∃ q, s = q +:+ "." +:+ e.
Proof.
  intros He. split.
  - intros Hext. destruct (last_dot s) as [Hs|(q & e' & -> & He')].
    + left. by rewrite extension_dotless in Hext.
    + right. rewrite extension_after_dot in Hext by done. subst e'. by exists q.
  - intros [->|[q ->]].
    + by apply extension_dotless.
    + by apply extension_after_dot.
Qed.

(** X3: the content type follows the text after the last dot of the
    resolved path, letter case included: [text/html], [text/javascript]
    and [text/css] for paths that end in [.html], [.js] and [.css] (or are
    that word alone), and [application/octet-stream] for every other path,
    among them the paths without a dot and those whose last dot is the one
    of a directory. *)
Theorem mime_type_by_extension (full_path : string) :
  (mime_type full_path = "text/html" ↔ has_extension full_path "html")
  ∧ (mime_type full_path = "text/javascript" ↔ has_extension full_path "js")
  ∧ (mime_type full_path = "text/css" ↔ has_extension full_path "css")
  ∧ (mime_type full_path = "application/octet-stream"
     ↔ ¬ has_extension full_path "html" ∧ ¬ has_extension full_path "js"
       ∧ ¬ has_extension full_path "css").
Proof.
  unfold has_extension.
  rewrite <- !extension_spec by done.
  unfold mime_type, dict_get_default, MIME_TYPES. simpl.
  repeat case_decide; simpl; repeat split; intros; destruct_and?;
    congruence.
Qed.

Section StaticFileFacts.

Context (Headers : Type) (header_in : string → Headers → bool)
  (join : string → string → string) (realpath : string → string)
  (commonpath : string → string → os_error + string)
  (path_exists isfile : string → bool)
  (read_file : string → os_error + string).

Abbreviation serve_file :=
  (process_request Headers header_in join realpath commonpath path_exists
     isfile read_file).

(** X4: [process_request] answers 200 exactly when the request is no
    upgrade, the resolved path has the server root as its common path
    with the root, it exists, it is a file and reading it succeeds; the
    answer then carries the four headers in their order, with the length of
    the body in decimal, and the bytes read.  Every other answer with a
    status is the same 404 without headers, and [/] is served as
    [/index.html]. *)
Theorem process_request_answers (sever_root path : string)
    (request_headers : Headers) :
  let full_path :=
    realpath (join sever_root
                (drop_first (if decide (path = "/") then "/index.html" else path))) in
  (∀ hs body,
     serve_file sever_root path request_headers = inr (Some (OK, hs, body))
     ↔ header_in "Upgrade" request_headers = false
       ∧ commonpath sever_root full_path = inr sever_root
       ∧ path_exists full_path = true
       ∧ isfile full_path = true
       ∧ read_file full_path = inr body
       ∧ hs = [("Server", "asyncio websocket server"); ("Connection", "close");
               ("Content-Type", mime_type full_path);
               ("Content-Length", pretty (String.length body))])
  ∧ (∀ hs body,
       serve_file sever_root path request_headers
       = inr (Some (NOT_FOUND, hs, body)) →
       hs = [] ∧ body = "404 NOT FOUND")
  ∧ (serve_file sever_root path request_headers = inr None
     ↔ header_in "Upgrade" request_headers = true)
  ∧ serve_file sever_root "/" request_headers
    = serve_file sever_root "/index.html" request_headers.
Proof.
  intros full_path. unfold process_request. fold full_path.
  split_and!.
  - intros hs body. destruct (header_in "Upgrade" request_headers).
    { split; [done|]. by intros [? _]. }
    destruct (commonpath sever_root full_path) as [e|common].
    { split; [done|]. by intros (_ & ? & _). }
    destruct (decide (common = sever_root)) as [->|Hne].
    2: { rewrite bool_decide_true by done. simpl. split; [done|].
         intros (_ & [= ?] & _). done. }
    rewrite bool_decide_false by (by intros []).
    destruct (path_exists full_path); simpl.
    2: { split; [done|]. by intros (_ & _ & ? & _). }
    destruct (isfile full_path); simpl.
    2: { split; [done|]. by intros (_ & _ & _ & ? & _). }
    destruct (read_file full_path) as [e|body'].
    { split; [done|]. by intros (_ & _ & _ & _ & ? & _). }
    split.
    + intros [= <- <-]. done.
    + intros (_ & _ & _ & _ & [= ->] & ->). done.
  - intros hs body. destruct (header_in "Upgrade" request_headers); [done|].
    destruct (commonpath sever_root full_path) as [e|common]; [done|].
    destruct (_ || _ || _); [by intros [= <- <-]|].
    by destruct (read_file full_path).
  - destruct (header_in "Upgrade" request_headers); [done|].
    destruct (commonpath sever_root full_path) as [e|common]; [done|].
    destruct (_ || _ || _); [done|].
    by destruct (read_file full_path).
  - reflexivity.
Qed.

End StaticFileFacts.

(** ** More on registration *)

Lemma dict_get_set_eq {V} (d : list (string * V)) k v :
  dict_get (dict_set d k v) k = Some v.
Proof.
  induction d as [|[k' v'] d IH]; simpl.
  - by rewrite decide_True.
  - case_decide; simpl; [by rewrite decide_True|]. by rewrite decide_False.
Qed.

Lemma dict_get_set_ne {V} (d : list (string * V)) k k' v :
  k ≠ k' → dict_get (dict_set d k v) k' = dict_get d k'.
Proof.
  intros Hne. induction d as [|[k1 v1] d IH]; simpl.
  - by rewrite decide_False.
  - case_decide; simpl.
    + subst k1. by rewrite !decide_False.
    + by rewrite IH.
Qed.

Lemma dict_set_keys_In {V} (d : list (string * V)) k v :
  k ∈ d.*1 → (dict_set d k v).*1 = d.*1.
Proof.
  induction d as [|[k' v'] d IH]; simpl; [by intros []%elem_of_nil|].
  intros Hin. case_decide; simpl; [by subst|].
  f_equal. apply IH. apply elem_of_cons in Hin as [->|?]; done.
Qed.

Lemma dict_set_fresh {V} (d : list (string * V)) k v :
  k ∉ d.*1 → dict_set d k v = d ++ [(k, v)].
Proof.
  induction d as [|[k' v'] d IH]; simpl; [done|].
  intros Hnin. apply not_elem_of_cons in Hnin as [Hne Hnin].
  rewrite decide_False by done. by rewrite IH.
Qed.

Lemma dict_set_NoDup {V} (d : list (string * V)) k v :
  NoDup d.*1 → NoDup (dict_set d k v).*1.
Proof.
  intros Hnd. destruct (decide (k ∈ d.*1)) as [Hin|Hnin].
  - by rewrite dict_set_keys_In.
  - rewrite dict_set_fresh, fmap_app by done. simpl.
    apply NoDup_app. split_and!; [done| |apply NoDup_singleton].
    intros k' Hk' ->%list_elem_of_singleton. done.
Qed.

Lemma dict_set_idemp {V} (d : list (string * V)) k v :
  dict_set (dict_set d k v) k v = dict_set d k v.
Proof.
  induction d as [|[k' v'] d IH]; simpl.
  - by rewrite decide_True.
  - case_decide; simpl; [by rewrite decide_True|].
    rewrite decide_False by done. by rewrite IH.
Qed.

Lemma bind_methods_bound nm interface ms d k :
  bind_methods nm interface ms d !! k
  = from_option Some (d !! k) (bound_by nm interface ms k).
Proof.
  revert d. induction ms as [|m ms IH]; intros d; [done|].
  rewrite bind_methods_cons, IH. simpl.
  destruct (bound_by nm interface ms k) as [b|]; [done|]. simpl.
  case_decide as Hk.
  - subst k. by rewrite lookup_insert_eq.
  - by rewrite lookup_insert_ne.
Qed.

Lemma bound_by_Some nm interface ms k b :
  bound_by nm interface ms k = Some b →
  ∃ m, m ∈ ms ∧ k = nm +:+ "." +:+ m_name m ∧ b = (m_fn m, interface).
Proof.
  induction ms as [|m ms IH]; simpl; [done|].
  destruct (bound_by nm interface ms k) as [b'|].
  - intros [= <-]. destruct IH as (m' & ? & ? & ?); [done|].
    exists m'. split; [by right|done].
  - case_decide; [|done]. intros [= <-]. exists m. split; [left|done].
Qed.

Lemma bound_by_None nm interface ms k :
  bound_by nm interface ms k = None ↔
  ∀ m, m ∈ ms → k ≠ nm +:+ "." +:+ m_name m.
Proof.
  induction ms as [|m ms IH]; simpl.
  - split; [|done]. by intros _ m []%elem_of_nil.
  - destruct (bound_by nm interface ms k) as [b|].
    + split; [done|]. intros Hall. destruct IH as [_ IH].
      discriminate IH. intros m' ?. apply Hall. by right.
    + case_decide as Hk.
      * split; [done|]. intros Hall. exfalso. by apply (Hall m); [left|].
      * split; [|done]. intros _ m' [->|?]%elem_of_cons; [done|].
        by apply IH.
Qed.

(** X5: registering an interface object that is registered already
    changes nothing: the second call returns and leaves the registry of
    the first. *)
Theorem register_interface_twice (rpc : RPC) (interface : nat)
    (o : ServiceInterface) :
  store rpc !! interface = Some o →
  register_interface interface (register_interface interface rpc).2
  = register_interface interface rpc.
Proof.
  intros Ho. rewrite (register_interface_eq rpc _ _ Ho). cbn [snd].
  rewrite (register_interface_eq _ _ o) by done. cbn.
  do 2 f_equal; [|apply dict_set_idemp].
  apply map_eq. intros k. rewrite !bind_methods_bound.
  by destruct (bound_by (name o) interface (_get_methods o) k).
Qed.

Lemma register_interface_twice_witness :
  register_interface main_time_service main_rpc
  = (Return tt, main_rpc).
Proof.
  assert (Hmain : main_rpc
    = (register_interface main_time_service
         (new_object TimeService_init (RPC_init 0)).2).2)
    by (vm_compute; reflexivity).
  rewrite Hmain at 1.
  rewrite (register_interface_twice _ main_time_service TimeService_init)
    by (vm_compute; reflexivity).
  vm_compute. reflexivity.
Defined.

(** X6: what [register_interface] leaves alone.  The objects, the peers
    and the buses are as before, so a peer that is connected already is
    not subscribed to the new interface.  Every other name keeps its
    interface, a name that was registered keeps its place, and names stay
    unique.  Every dispatch key that is not one of the new interface's own
    keeps its binding, also a binding to an interface that was registered
    under the same name before; no key is ever removed. *)
Theorem register_interface_frame (rpc : RPC) (interface : nat)
    (o : ServiceInterface) :
  store rpc !! interface = Some o →
  store (register_interface interface rpc).2 = store rpc
  ∧ bus (register_interface interface rpc).2 = bus rpc
  ∧ dict_get (interfaces (register_interface interface rpc).2) (name o)
    = Some interface
  ∧ (∀ n, n ≠ name o →
       dict_get (interfaces (register_interface interface rpc).2) n
       = dict_get (interfaces rpc) n)
  ∧ (name o ∈ (interfaces rpc).*1 →
     (interfaces (register_interface interface rpc).2).*1 = (interfaces rpc).*1)
  ∧ (NoDup (interfaces rpc).*1 →
     NoDup (interfaces (register_interface interface rpc).2).*1)
  ∧ (∀ k, (∀ m, m ∈ _get_methods o → k ≠ name o +:+ "." +:+ m_name m) →
       dispatcher (register_interface interface rpc).2 !! k
       = dispatcher rpc !! k)
  ∧ (∀ k, k ∈ dom (dispatcher rpc) →
       k ∈ dom (dispatcher (register_interface interface rpc).2)).
Proof.
  intros Ho. rewrite (register_interface_eq rpc _ _ Ho). cbn.
  split_and!; [done..| | | | | |].
  - apply dict_get_set_eq.
  - intros n Hn. by apply dict_get_set_ne.
  - apply dict_set_keys_In.
  - apply dict_set_NoDup.
  - intros k Hk. rewrite bind_methods_bound.
    by rewrite (proj2 (bound_by_None (name o) interface _ k) Hk).
  - intros k Hk. apply bind_methods_dom. by left.
Qed.

Lemma register_interface_frame_witness :
  dict_get (interfaces main_rpc) "jrpc" = Some 0%nat
  ∧ dispatcher main_rpc !! "jrpc.Property.Get" = Some (fn_get_prop, 0%nat).
Proof.
  assert (Hmain : main_rpc
    = (register_interface main_time_service
         (new_object TimeService_init (RPC_init 0)).2).2)
    by (vm_compute; reflexivity).
  destruct (register_interface_frame
              (new_object TimeService_init (RPC_init 0)).2
              main_time_service TimeService_init)
    as (_ & _ & _ & Hnames & _ & _ & Hkeys & _).
  { vm_compute. reflexivity. }
  rewrite Hmain. split.
  - rewrite Hnames by done. vm_compute. reflexivity.
  - rewrite Hkeys; [vm_compute; reflexivity|].
    intros m Hm.
    assert (Hms : _get_methods TimeService_init
                  = [Method "set_alarm" fn_set_alarm; Method "time" fn_time])
      by (vm_compute; reflexivity).
    rewrite Hms in Hm.
    apply elem_of_cons in Hm as [->|Hm]; [done|].
    apply elem_of_cons in Hm as [->|Hm]; [done|].
    by apply elem_of_nil in Hm.
Defined.

(** ** More on the descriptor lists *)

Lemma foldl_scan_signals cls sc :
  sc_signals (foldl scan_member sc cls) = sc_signals sc ++ signal_members cls.
Proof.
  revert sc. induction cls as [|nm cls IH]; intros sc; simpl.
  - by rewrite app_nil_r.
  - rewrite IH. unfold scan_member, signal_members. simpl.
    destruct (RPC_METHOD nm.2) as [m|]; simpl; [done|].
    destruct (RPC_SIGNAL nm.2); simpl; [by rewrite <- app_assoc|].
    destruct (RPC_PROPERTY nm.2); simpl; [|done].
    by case_decide.
Qed.

Lemma first_with_getter_snoc p seen q :
  first_with_getter p seen → first_with_getter p (seen ++ q).
Proof.
  intros (l1 & l2 & -> & Hl1). exists l1, (l2 ++ q).
  by rewrite <- app_assoc.
Qed.

Lemma scan_member_kept seen sc nm :
  kept_inv seen sc →
  kept_inv (seen ++ property_members [nm]) (scan_member sc nm).
Proof.
  intros (Hinv & Hsub & Hfirst). split; [by apply scan_member_inv|].
  destruct Hinv as (_ & Hset & Hseen).
  unfold scan_member, property_members; simpl.
  destruct (RPC_METHOD nm.2) as [m|]; simpl.
  { rewrite app_nil_r. done. }
  destruct (RPC_SIGNAL nm.2) as [s|]; simpl.
  { rewrite app_nil_r. done. }
  destruct (RPC_PROPERTY nm.2) as [p|]; simpl.
  2: { rewrite app_nil_r. done. }
  destruct (decide (fget p ∈ sc_properties_getters sc)) as [Hin|Hnin].
  - split; [by apply sublist_inserts_r|].
    intros q Hq. by apply first_with_getter_snoc, Hfirst.
  - cbn [sc_properties]. split; [by apply sublist_app|].
    intros q [Hq| ->%list_elem_of_singleton]%elem_of_app.
    + by apply first_with_getter_snoc, Hfirst.
    + exists seen, []. split; [done|]. by rewrite <- Hseen, <- Hset.
Qed.

Lemma foldl_scan_kept cls seen sc :
  kept_inv seen sc →
  kept_inv (seen ++ property_members cls) (foldl scan_member sc cls).
Proof.
  revert seen sc. induction cls as [|nm cls IH]; intros seen sc Hinv.
  - unfold property_members. simpl. by rewrite app_nil_r.
  - change (nm :: cls) with ([nm] ++ cls) at 1.
    rewrite (property_members_app [nm] cls), app_assoc. cbn [foldl].
    apply IH, scan_member_kept, Hinv.
Qed.

(** X7: the three descriptor lists of an interface.  A class member lands
    in one list at most, by the first tag it carries in the order method,
    signal, property: the methods are the method-tagged members and the
    signals the signal-tagged members without method tag, both in the order
    of the members.  The properties come in the order of the members too,
    and of several property members with one getter the first stays,
    whatever setter a later one carries.  The bus starts empty. *)
Theorem descriptor_lists (nm : string) (cls : list (string * member)) :
  _get_methods (ServiceInterface_init nm cls) = method_members cls
  ∧ __signals (ServiceInterface_init nm cls) = signal_members cls
  ∧ _get_properties (ServiceInterface_init nm cls)
      `sublist_of` property_members cls
  ∧ (∀ p, p ∈ _get_properties (ServiceInterface_init nm cls) →
          first_with_getter p (property_members cls))
  ∧ __bus (ServiceInterface_init nm cls) = ∅.
Proof.
  assert (Hkept : kept_inv (property_members cls) (scan_members cls)).
  { apply (foldl_scan_kept cls []). unfold kept_inv, scan_inv. simpl.
    split_and!; [constructor|set_solver..|done|set_solver]. }
  destruct Hkept as (_ & Hsub & Hfirst).
  split_and!; [|apply (foldl_scan_signals cls)|done..].
  apply (foldl_scan_methods cls).
Qed.

(** ** More on introspection *)

Lemma foldl_dict_set_fresh {V} (l : list (string * nat)) (d : list (string * V)) v :
  NoDup (d.*1 ++ l.*1) →
  foldl (λ d ni, dict_set d ni.1 v) d l = d ++ ((λ ni, (ni.1, v)) <$> l).
Proof.
  revert d. induction l as [|[k a] l IH]; intros d Hnd; simpl.
  - by rewrite app_nil_r.
  - simpl in Hnd. rewrite dict_set_fresh.
    + rewrite IH; [by rewrite <- app_assoc|].
      rewrite fmap_app. simpl. by rewrite <- app_assoc.
    + apply NoDup_app in Hnd as (_ & Hnin & _). intros Hk.
      apply (Hnin k Hk). left.
Qed.

(** X8: [Introspect] returns, leaves the registry as it is, and lists the
    registered names, each once and in the order of their first
    registration, every one with the same three empty entries. *)
Theorem introspect_registered_names (rpc : RPC) :
  NoDup (interfaces rpc).*1 →
  introspect rpc
  = (Return (JObject [("interfaces",
       JObject ((λ ni, (ni.1, empty_description)) <$> interfaces rpc))]), rpc).
Proof.
  intros Hnd. unfold introspect, mbind, M_bind, get_state, mret, M_ret.
  do 6 f_equal.
  exact (foldl_dict_set_fresh (interfaces rpc) [] empty_description Hnd).
Qed.

Lemma introspect_registered_names_witness :
  (introspect main_rpc).1
  = Return (JObject [("interfaces",
      JObject [("jrpc", empty_description);
               ("ee.arti.TimeService", empty_description)])]).
Proof.
  rewrite (introspect_registered_names main_rpc).
  - vm_compute. reflexivity.
  - apply (bool_decide_unpack _). vm_compute. exact I.
Defined.

(** ** More on signal broadcast *)

Lemma sent_failed_perm evs : sent evs ++ failed evs ≡ₚ evs.*1.
Proof.
  induction evs as [|[p ok] evs IH]; [done|].
  rewrite sent_cons, failed_cons, fmap_cons. simpl.
  unfold sent at 1, failed at 1. rewrite !filter_cons. simpl.
  destruct ok; simpl.
  - by rewrite <- IH.
  - by rewrite <- IH, <- Permutation_middle.
Qed.

Lemma set_bus_same self : set_bus self (__bus self) = self.
Proof. by destruct self. Qed.

Lemma set_bus_set_bus self b1 b2 : set_bus (set_bus self b1) b2 = set_bus self b2.
Proof. done. Qed.

Lemma resolve_task_only_bus self p exception :
  run_callback (resolve_task p exception) self
  = set_bus self (__bus (run_callback (resolve_task p exception) self)).
Proof.
  unfold run_callback, resolve_task. destruct exception as [e|]; simpl.
  - unfold _remove_bus. case_decide; simpl; [done|]. by rewrite set_bus_same.
  - by rewrite set_bus_same.
Qed.

Lemma steps_only_bus l evs l' :
  steps l evs l' → l_self l' = set_bus (l_self l) (__bus (l_self l')).
Proof.
  induction 1 as [l|l1 ev l2 evs l3 Hstep Hsteps IH].
  - by rewrite set_bus_same.
  - rewrite IH. destruct Hstep; cbn [l_self];
      rewrite resolve_task_only_bus; done.
Qed.

(** Whatever outcome each send is to have, the loop can run a broadcast to
    its end. *)
Lemma run_to_end (fails : Peer → bool) l :
  ∃ evs l', steps l evs l' ∧ l_pending l' = []
            ∧ ∀ p ok, (p, ok) ∈ evs → ok = negb (fails p).
Proof.
  destruct l as [self pending log]. revert self log.
  induction pending as [|t ts IH]; intros self log.
  - exists [], (Loop self [] log). split_and!; [constructor|done|].
    by intros p ok []%elem_of_nil.
  - destruct (fails (t_bus t)) eqn:Hf.
    + destruct (IH (run_callback (resolve_task (t_bus t) (Some "send failed")) self) log)
        as (evs & l' & Hrun & Hend & Hev).
      exists ((t_bus t, false) :: evs), l'. split_and!; [|done|].
      * eapply steps_cons; [|exact Hrun].
        apply (step_failed self t [] ts log).
      * intros p ok [[= -> ->]|?]%elem_of_cons; [by rewrite Hf|by apply Hev].
    + destruct (IH (run_callback (resolve_task (t_bus t) None) self)
                   (log ++ [(t_bus t, t_message t)]))
        as (evs & l' & Hrun & Hend & Hev).
      exists ((t_bus t, true) :: evs), l'. split_and!; [|done|].
      * eapply steps_cons; [|exact Hrun].
        apply (step_sent self t [] ts log).
      * intros p ok [[= -> ->]|?]%elem_of_cons; [by rewrite Hf|by apply Hev].
Qed.

(** X9: a broadcast run to its end, whichever sends fail and in whatever
    order the tasks complete.  Every peer that was on the bus when the
    handler returned has had one send, which went through or failed; the
    peers whose send went through have received the message, in the order
    of completion; the bus has lost the peers whose send failed and no
    other, and nothing else of the interface has changed. *)
Theorem broadcast_outcome
    (body : function → list value → M ServiceInterface value)
    (sig : _Signal) (args : list value) (self self1 : ServiceInterface)
    (result : value) (evs : list (Peer * bool)) (l' : loop) :
  body (s_fn sig) args self = (Return result, self1) →
  steps (signal_wrapped body sig args (Loop self [] [])).2 evs l' →
  l_pending l' = [] →
  sent evs ++ failed evs ≡ₚ elements (__bus self1)
  ∧ (l_delivered l').*1 = sent evs
  ∧ (∀ pm, pm ∈ l_delivered l' → pm.2 = signal_message)
  ∧ l_self l' = set_bus self1 (__bus self1 ∖ list_to_set (failed evs)).
Proof.
  intros Hbody Hrun Hdone.
  rewrite (signal_wrapped_returns _ _ _ _ _ _ Hbody) in Hrun. simpl in Hrun.
  destruct (steps_sound _ _ _ Hrun) as (Hperm & Hbus & Hlog & Hmsg).
  simpl in Hperm, Hbus, Hlog, Hmsg.
  rewrite Hdone, handle_signal_peers in Hperm. simpl in Hperm.
  rewrite app_nil_r in Hperm.
  split_and!.
  - by rewrite sent_failed_perm.
  - done.
  - intros pm [[]%elem_of_nil|Hin]%Hmsg.
    by apply handle_signal_message in Hin.
  - rewrite (steps_only_bus _ _ _ Hrun). simpl. by rewrite Hbus.
Qed.

Lemma broadcast_outcome_witness :
  ∃ l',
    steps (signal_wrapped program_body alarm_clock_signal []
             (Loop two_peers [] [])).2
          [(1%nat, false); (2%nat, false)] l'
    ∧ (l_delivered l').*1 = []
    ∧ l_self l' = set_bus two_peers (__bus two_peers ∖ {[1%nat; 2%nat]}).
Proof.
  assert (Hfire :
    (signal_wrapped program_body alarm_clock_signal [] (Loop two_peers [] [])).2
    = Loop two_peers [Task 2 signal_message; Task 1 signal_message] []).
  { vm_compute. reflexivity. }
  assert (Hrun : ∃ l',
    steps (signal_wrapped program_body alarm_clock_signal []
             (Loop two_peers [] [])).2
          [(1%nat, false); (2%nat, false)] l' ∧ l_pending l' = []).
  { rewrite Hfire. eexists. split.
    - eapply steps_cons.
      + apply (step_failed two_peers (Task 1 signal_message)
                 [Task 2 signal_message] [] [] "ConnectionClosed").
      + eapply steps_cons.
        * apply (step_failed _ (Task 2 signal_message) [] [] []
                   "ConnectionClosed").
        * apply steps_nil.
    - reflexivity. }
  destruct Hrun as (l' & Hrun & Hdone). exists l'. split; [exact Hrun|].
  destruct (broadcast_outcome program_body alarm_clock_signal []
              two_peers two_peers (VStr "ALARM")
              [(1%nat, false); (2%nat, false)] l' eq_refl Hrun Hdone)
    as (_ & Hlog & _ & Hself).
  split; [exact Hlog|]. rewrite Hself. f_equal.
Defined.

(** ** The life of a connection *)

Lemma at_object_add_bus rpc a o ws :
  store rpc !! a = Some o →
  at_object a (_add_bus ws) rpc
  = (Return tt, set_store rpc (<[a := set_bus o ({[ws]} ∪ __bus o)]> (store rpc))).
Proof. intros Ho. unfold at_object. by rewrite Ho. Qed.

Lemma at_object_remove_bus rpc a o ws :
  store rpc !! a = Some o →
  at_object a (_remove_bus ws) rpc
  = if decide (ws ∈ __bus o)
    then (Return tt,
          set_store rpc (<[a := set_bus o (__bus o ∖ {[ws]})]> (store rpc)))
    else (Raise KeyError, rpc).
Proof.
  intros Ho. unfold at_object, _remove_bus. rewrite Ho.
  case_decide; simpl; [done|]. by rewrite insert_id, set_store_id.
Qed.

(** The loop of [RPC._add_bus], exactly. *)
Lemma add_loop_exact self ws l rpc :
  (∀ a, a ∈ l → is_Some (store rpc !! a)) →
  ∃ rpc',
    for_each l (λ interface,
      if decide (interface = self)
      then at_object self (_add_bus ws)
      else at_object interface (_add_bus ws)) rpc = (Return tt, rpc')
    ∧ interfaces rpc' = interfaces rpc ∧ bus rpc' = bus rpc
    ∧ self_id rpc' = self_id rpc ∧ dispatcher rpc' = dispatcher rpc
    ∧ ∀ a, store rpc' !! a = added ws l a <$> store rpc !! a.
Proof.
  revert rpc. induction l as [|i l IH]; intros rpc Hall.
  - exists rpc. split_and!; [done..|]. intros a.
    destruct (store rpc !! a) as [o|]; [|done]. simpl. unfold added.
    by rewrite decide_False by apply not_elem_of_nil.
  - destruct (Hall i) as [oi Hoi]; [by left|].
    set (rpc1 := set_store rpc
           (<[i := set_bus oi ({[ws]} ∪ __bus oi)]> (store rpc))).
    assert (Hbody : (if decide (i = self)
                     then at_object self (_add_bus ws)
                     else at_object i (_add_bus ws)) rpc
                    = (Return tt, rpc1)).
    { case_decide; subst; by rewrite (at_object_add_bus _ _ _ _ Hoi). }
    destruct (IH rpc1) as (rpc' & Hrun & Hint & Hbus & Hself & Hdisp & Hobj).
    { intros a Ha. unfold rpc1. simpl.
      destruct (decide (i = a)) as [->|]; [by rewrite lookup_insert_eq|].
      rewrite lookup_insert_ne by done. apply Hall. by right. }
    exists rpc'. split_and!; [|done..|].
    + cbn [for_each]. unfold mbind, M_bind. by rewrite Hbody.
    + intros a. rewrite Hobj. unfold rpc1. simpl.
      destruct (decide (i = a)) as [->|Hne].
      * rewrite lookup_insert_eq, Hoi. simpl. f_equal. unfold added.
        rewrite (decide_True (P := a ∈ a :: l)) by left.
        destruct (decide (a ∈ l)); [|reflexivity].
        unfold set_bus. cbn. f_equal. set_solver.
      * rewrite lookup_insert_ne by done.
        destruct (store rpc !! a) as [o|]; [|done]. simpl. f_equal.
        unfold added. destruct (decide (a ∈ l)) as [Hin|Hnin].
        -- by rewrite decide_True by (by right).
        -- rewrite decide_False; [done|].
           by intros [->|?]%elem_of_cons.
Qed.

(** The loop of [RPC._remove_bus] over distinct interfaces that all have
    the peer, the aggregator apart: exactly. *)
Lemma remove_loop_exact self ws l rpc :
  NoDup l →
  (∀ a, a ∈ l → ∃ o, store rpc !! a = Some o ∧ (a ≠ self → ws ∈ __bus o)) →
  ∃ rpc',
    for_each l (λ interface,
      if decide (interface = self)
      then at_object self (_add_bus ws)
      else at_object interface (_remove_bus ws)) rpc = (Return tt, rpc')
    ∧ interfaces rpc' = interfaces rpc ∧ bus rpc' = bus rpc
    ∧ self_id rpc' = self_id rpc ∧ dispatcher rpc' = dispatcher rpc
    ∧ ∀ a, store rpc' !! a = removed self ws l a <$> store rpc !! a.
Proof.
  intros Hnd. revert rpc. induction Hnd as [|i l Hi Hnd IH]; intros rpc Hall.
  - exists rpc. split_and!; [done..|]. intros a.
    destruct (store rpc !! a) as [o|]; [|done]. simpl. unfold removed.
    by rewrite decide_False by apply not_elem_of_nil.
  - destruct (Hall i) as (oi & Hoi & Hws); [by left|].
    set (oi' := if decide (i = self) then set_bus oi ({[ws]} ∪ __bus oi)
                else set_bus oi (__bus oi ∖ {[ws]})).
    set (rpc1 := set_store rpc (<[i := oi']> (store rpc))).
    assert (Hbody : (if decide (i = self)
                     then at_object self (_add_bus ws)
                     else at_object i (_remove_bus ws)) rpc
                    = (Return tt, rpc1)).
    { unfold rpc1, oi'. case_decide as Hself.
      - subst. by rewrite (at_object_add_bus _ _ _ _ Hoi).
      - rewrite (at_object_remove_bus _ _ _ _ Hoi).
        by rewrite decide_True by auto. }
    destruct (IH rpc1) as (rpc' & Hrun & Hint & Hbus & Hself & Hdisp & Hobj).
    { intros a Ha. unfold rpc1. simpl.
      rewrite lookup_insert_ne by (by intros ->). apply Hall. by right. }
    exists rpc'. split_and!; [|done..|].
    + cbn [for_each]. unfold mbind, M_bind. by rewrite Hbody.
    + intros a. rewrite Hobj. unfold rpc1. simpl.
      destruct (decide (i = a)) as [->|Hne].
      * rewrite lookup_insert_eq, Hoi. simpl. f_equal. unfold removed.
        rewrite (decide_False (P := a ∈ l)) by done.
        by rewrite (decide_True (P := a ∈ a :: l)) by left.
      * rewrite lookup_insert_ne by done.
        destruct (store rpc !! a) as [o|]; [|done]. simpl. f_equal.
        unfold removed. destruct (decide (a ∈ l)) as [Hin|Hnin].
        -- by rewrite (decide_True (P := a ∈ i :: l)) by (by right).
        -- rewrite (decide_False (P := a ∈ i :: l)); [done|].
           by intros [->|?]%elem_of_cons.
Qed.

Lemma RPC_add_bus_exact rpc ws :
  (∀ a, a ∈ (interfaces rpc).*2 → is_Some (store rpc !! a)) →
  ∃ rpc1,
    RPC_add_bus ws rpc = (Return tt, rpc1)
    ∧ interfaces rpc1 = interfaces rpc ∧ bus rpc1 = {[ws]} ∪ bus rpc
    ∧ self_id rpc1 = self_id rpc ∧ dispatcher rpc1 = dispatcher rpc
    ∧ ∀ a, store rpc1 !! a = added ws (interfaces rpc).*2 a <$> store rpc !! a.
Proof.
  intros Hall.
  set (rpc0 := Registry (store rpc) (self_id rpc) (dispatcher rpc)
                        (interfaces rpc) ({[ws]} ∪ bus rpc)).
  destruct (add_loop_exact (self_id rpc) ws (interfaces rpc).*2 rpc0 Hall)
    as (rpc1 & Hrun & ? & ? & ? & ? & ?).
  exists rpc1. split_and!; [|done..].
  unfold RPC_add_bus, mbind, M_bind, modify_state, get_state. exact Hrun.
Qed.

Lemma RPC_remove_bus_exact rpc ws :
  NoDup (interfaces rpc).*2 →
  ws ∈ bus rpc →
  (∀ a, a ∈ (interfaces rpc).*2 →
     ∃ o, store rpc !! a = Some o ∧ (a ≠ self_id rpc → ws ∈ __bus o)) →
  ∃ rpc',
    RPC_remove_bus ws rpc = (Return tt, rpc')
    ∧ interfaces rpc' = interfaces rpc ∧ bus rpc' = bus rpc ∖ {[ws]}
    ∧ self_id rpc' = self_id rpc ∧ dispatcher rpc' = dispatcher rpc
    ∧ ∀ a, store rpc' !! a
           = removed (self_id rpc) ws (interfaces rpc).*2 a <$> store rpc !! a.
Proof.
  intros Hnd Hws Hall.
  set (rpc0 := Registry (store rpc) (self_id rpc) (dispatcher rpc)
                        (interfaces rpc) (bus rpc ∖ {[ws]})).
  destruct (remove_loop_exact (self_id rpc) ws (interfaces rpc).*2 rpc0 Hnd Hall)
    as (rpc1 & Hrun & ? & ? & ? & ? & ?).
  exists rpc1. split_and!; [|done..].
  unfold RPC_remove_bus, mbind, M_bind, get_state.
  rewrite decide_True by done. exact Hrun.
Qed.

(** X10: the life of a connection, in a registry whose interfaces are
    distinct objects, when the message loop ends without an exception of
    its own and leaves the registered names and all buses alone.
    [ws_handler] returns; the peer is gone from the aggregator's [bus] and
    from the bus of every registered interface but the aggregator's own,
    which keeps it; no other peer is touched. *)
Theorem ws_handler_lifecycle (serve : M RPC unit) (ws : Peer) (rpc rpc2 : RPC) :
  NoDup (interfaces rpc).*2 →
  (∀ a, a ∈ (interfaces rpc).*2 → is_Some (store rpc !! a)) →
  serve (RPC_add_bus ws rpc).2 = (Return tt, rpc2) →
  interfaces rpc2 = interfaces rpc →
  self_id rpc2 = self_id rpc →
  bus rpc2 = bus (RPC_add_bus ws rpc).2 →
  (∀ a, bus_at rpc2 a = bus_at (RPC_add_bus ws rpc).2 a) →
  ∃ rpc3,
    ws_handler serve ws rpc = (Return tt, rpc3)
    ∧ bus rpc3 = bus rpc ∖ {[ws]}
    ∧ interfaces rpc3 = interfaces rpc
    ∧ ∀ a o, store rpc !! a = Some o →
        bus_at rpc3 a
        = Some (if decide (a ∈ (interfaces rpc).*2)
                then if decide (a = self_id rpc) then {[ws]} ∪ __bus o
                     else __bus o ∖ {[ws]}
                else __bus o).
Proof.
  intros Hnd Hall Hserve Hint2 Hself2 Hbus2 Hbuses.
  destruct (RPC_add_bus_exact rpc ws Hall)
    as (rpc1 & Hadd & Hint1 & Hbus1 & Hself1 & _ & Hobj1).
  rewrite Hadd in Hserve, Hbus2, Hbuses. cbn [snd] in Hserve, Hbus2, Hbuses.
  assert (Hobj2 : ∀ a o, store rpc !! a = Some o →
            ∃ o2, store rpc2 !! a = Some o2
                  ∧ __bus o2 = __bus (added ws (interfaces rpc).*2 a o)).
  { intros a o Ho. specialize (Hbuses a). unfold bus_at in Hbuses.
    rewrite Hobj1, Ho in Hbuses. simpl in Hbuses.
    apply fmap_Some in Hbuses as (o2 & ? & ?). eauto. }
  destruct (RPC_remove_bus_exact rpc2 ws)
    as (rpc3 & Hrem & Hint3 & Hbus3 & _ & _ & Hobj3).
  { by rewrite Hint2. }
  { rewrite Hbus2, Hbus1. set_solver. }
  { rewrite Hint2. intros a Ha. destruct (Hall a Ha) as [o Ho].
    destruct (Hobj2 a o Ho) as (o2 & Ho2 & Hb2). exists o2. split; [done|].
    intros _. rewrite Hb2. unfold added. rewrite decide_True by done.
    simpl. set_solver. }
  exists rpc3. split_and!.
  - unfold ws_handler, mbind, M_bind. by rewrite Hadd, Hserve.
  - rewrite Hbus3, Hbus2, Hbus1. set_solver.
  - by rewrite Hint3.
  - intros a o Ho. destruct (Hobj2 a o Ho) as (o2 & Ho2 & Hb2).
    unfold bus_at. rewrite Hobj3, Ho2. simpl. f_equal.
    rewrite Hint2, Hself2. unfold removed, added in *.
    destruct (decide (a ∈ (interfaces rpc).*2)); [|done].
    simpl in Hb2. case_decide; simpl; rewrite Hb2; set_solver.
Qed.

Lemma ws_handler_lifecycle_witness :
  ∃ rpc3,
    ws_handler (mret tt) 7 main_rpc = (Return tt, rpc3)
    ∧ bus rpc3 = bus main_rpc ∖ {[7%nat]}
    ∧ bus_at rpc3 main_time_service = Some ∅
    ∧ bus_at rpc3 (self_id main_rpc) = Some {[7%nat]}.
Proof.
  destruct (ws_handler_lifecycle (mret tt) 7 main_rpc
              (RPC_add_bus 7 main_rpc).2)
    as (rpc3 & Hrun & Hbus & _ & Hobj).
  - apply (bool_decide_unpack _). vm_compute. exact I.
  - intros a Ha. rewrite main_interfaces in Ha. simpl in Ha.
    apply elem_of_cons in Ha as [->|Ha]; [by vm_compute; eexists|].
    apply elem_of_cons in Ha as [->|Ha]; [by vm_compute; eexists|].
    by apply elem_of_nil in Ha.
  - reflexivity.
  - vm_compute. reflexivity.
  - reflexivity.
  - reflexivity.
  - reflexivity.
  - exists rpc3. split_and!; [done..| |].
    + rewrite (Hobj main_time_service TimeService_init)
        by (vm_compute; reflexivity).
      vm_compute. reflexivity.
    + destruct (store main_rpc !! self_id main_rpc) as [agg|] eqn:Hagg;
        [|by vm_compute in Hagg].
      rewrite (Hobj _ agg Hagg). f_equal.
      assert (__bus agg = ∅) as ->.
      { apply (inj Some). change (Some (__bus agg)) with (__bus <$> Some agg).
        rewrite <- Hagg. vm_compute. reflexivity. }
      vm_compute. reflexivity.
Defined.

(** The loop of [RPC._remove_bus] returns only if every interface it
    visits, the aggregator apart, has the peer. *)
Lemma remove_loop_returns self ws l rpc rpc' :
  for_each l (λ interface,
    if decide (interface = self)
    then at_object self (_add_bus ws)
    else at_object interface (_remove_bus ws)) rpc = (Return tt, rpc') →
  ∀ a, a ∈ l → a ≠ self → ∃ o, store rpc !! a = Some o ∧ ws ∈ __bus o.
Proof.
  revert rpc. induction l as [|i l IH]; intros rpc Hrun a Ha Hne.
  - by apply elem_of_nil in Ha.
  - cbn [for_each] in Hrun.
    apply M_bind_Return in Hrun as ([] & rpc1 & Hbody & Hrest).
    destruct (decide (a = i)) as [->|Hai].
    + rewrite decide_False in Hbody by done.
      apply at_object_Return in Hbody as (o & o' & Ho & Hrem & _).
      exists o. split; [done|]. unfold _remove_bus in Hrem.
      by case_decide.
    + apply elem_of_cons in Ha as [?|Ha]; [done|].
      destruct (IH rpc1 Hrest a Ha Hne) as (o1 & Ho1 & Hws).
      exists o1. split; [|done].
      assert (Hstore : ∃ o', store rpc1 = <[i := o']> (store rpc)).
      { case_decide; [subst i|];
          apply at_object_Return in Hbody as (? & o' & _ & _ & ->);
          by exists o'. }
      destruct Hstore as [o' Hstore]. rewrite Hstore in Ho1.
      by rewrite lookup_insert_ne in Ho1.
Qed.

(** The loop raises [KeyError] when it visits an interface other than the
    aggregator that lacks the peer. *)
Lemma remove_loop_raises self ws l rpc a o :
  (∀ i, i ∈ l → is_Some (store rpc !! i)) →
  a ∈ l → a ≠ self → store rpc !! a = Some o → ws ∉ __bus o →
  ∃ rpc',
    for_each l (λ interface,
      if decide (interface = self)
      then at_object self (_add_bus ws)
      else at_object interface (_remove_bus ws)) rpc = (Raise KeyError, rpc')
    ∧ bus rpc' = bus rpc ∧ interfaces rpc' = interfaces rpc.
Proof.
  revert rpc. induction l as [|i l IH]; intros rpc Hall Ha Hne Ho Hws.
  - by apply elem_of_nil in Ha.
  - destruct (Hall i) as [oi Hoi]; [by left|].
    cbn [for_each]. unfold mbind, M_bind.
    assert (Hnext : ∀ oi', i ≠ a →
      ∃ rpc',
        for_each l (λ interface,
          if decide (interface = self)
          then at_object self (_add_bus ws)
          else at_object interface (_remove_bus ws))
          (set_store rpc (<[i := oi']> (store rpc))) = (Raise KeyError, rpc')
        ∧ bus rpc' = bus rpc ∧ interfaces rpc' = interfaces rpc).
    { intros oi' Hia.
      destruct (IH (set_store rpc (<[i := oi']> (store rpc))))
        as (rpc' & ? & ? & ?); simpl.
      - intros j Hj. destruct (decide (i = j)) as [->|];
          [by rewrite lookup_insert_eq|].
        rewrite lookup_insert_ne by done. apply Hall. by right.
      - apply elem_of_cons in Ha as [->|?]; done.
      - done.
      - by rewrite lookup_insert_ne.
      - done.
      - by exists rpc'. }
    case_decide as Hself.
    + subst i. rewrite (at_object_add_bus _ _ _ _ Hoi).
      apply Hnext. by intros ->.
    + rewrite (at_object_remove_bus _ _ _ _ Hoi).
      destruct (decide (ws ∈ __bus oi)) as [Hin|Hnin].
      * apply Hnext. intros ->. by simplify_eq.
      * by exists rpc.
Qed.

(** X11: when [RPC._remove_bus] fails.  A peer that is not in the
    aggregator's [bus] (a second disconnect) raises [KeyError] and changes
    nothing.  The call returns only if the peer was in [bus] and on the bus
    of every registered interface other than the aggregator.  When some
    such interface lacks the peer, as one registered after the peer
    connected does, the call raises [KeyError], the peer having left [bus]
    already. *)
Theorem remove_bus_failures (rpc : RPC) (ws : Peer) :
  (ws ∉ bus rpc → RPC_remove_bus ws rpc = (Raise KeyError, rpc))
  ∧ (∀ rpc', RPC_remove_bus ws rpc = (Return tt, rpc') →
       ws ∈ bus rpc
       ∧ ∀ a, a ∈ (interfaces rpc).*2 → a ≠ self_id rpc →
           ∃ o, store rpc !! a = Some o ∧ ws ∈ __bus o)
  ∧ (∀ a o,
       (∀ i, i ∈ (interfaces rpc).*2 → is_Some (store rpc !! i)) →
       ws ∈ bus rpc →
       a ∈ (interfaces rpc).*2 → a ≠ self_id rpc →
       store rpc !! a = Some o → ws ∉ __bus o →
       ∃ rpc', RPC_remove_bus ws rpc = (Raise KeyError, rpc')
               ∧ bus rpc' = bus rpc ∖ {[ws]}).
Proof.
  split_and!.
  - intros Hws. unfold RPC_remove_bus, mbind, M_bind.
    by rewrite decide_False.
  - intros rpc' Hrun. unfold RPC_remove_bus in Hrun.
    apply M_bind_Return in Hrun as ([] & rpc1 & Hbus & Hrun).
    apply M_bind_Return in Hrun as (rpc2 & rpc3 & Hget & Hrun).
    injection Hget as <- <-. case_decide; [|done].
    injection Hbus as <-. split; [done|]. simpl in Hrun.
    intros a Ha Hne. by apply (remove_loop_returns _ _ _ _ _ Hrun).
  - intros a o Hall Hws Ha Hne Ho Hnin.
    set (rpc0 := Registry (store rpc) (self_id rpc) (dispatcher rpc)
                          (interfaces rpc) (bus rpc ∖ {[ws]})).
    destruct (remove_loop_raises (self_id rpc) ws (interfaces rpc).*2 rpc0 a o
                Hall Ha Hne Ho Hnin) as (rpc' & Hrun & Hbus & _).
    exists rpc'. split; [|done].
    unfold RPC_remove_bus, mbind, M_bind, get_state.
    rewrite decide_True by done. exact Hrun.
Qed.

(** The registry of [main] after the peer 7 has connected and a second
    [TimeService] has then been registered. *)
Lemma remove_bus_failures_witness :
  ∃ rpc',
    RPC_remove_bus 7
      ((ts ← new_object TimeService_init; register_interface ts)
         (RPC_add_bus 7 main_rpc).2).2
    = (Raise KeyError, rpc')
    ∧ bus rpc' = ∅.
Proof.
  set (rpc := ((ts ← new_object TimeService_init; register_interface ts)
                 (RPC_add_bus 7 main_rpc).2).2).
  destruct (remove_bus_failures rpc 7) as (_ & _ & Hlate).
  destruct (Hlate 2%nat TimeService_init) as (rpc' & Hrun & Hbus).
  - assert (Hint : (interfaces rpc).*2 = [0%nat; 2%nat])
      by (vm_compute; reflexivity).
    intros i Hi. rewrite Hint in Hi.
    apply elem_of_cons in Hi as [->|Hi]; [by vm_compute; eexists|].
    apply elem_of_cons in Hi as [->|Hi]; [by vm_compute; eexists|].
    by apply elem_of_nil in Hi.
  - apply (bool_decide_unpack _). vm_compute. exact I.
  - apply (bool_decide_unpack _). vm_compute. exact I.
  - vm_compute. lia.
  - vm_compute. reflexivity.
  - apply (bool_decide_unpack _). vm_compute. exact I.
  - exists rpc'. split; [exact Hrun|]. rewrite Hbus. vm_compute. reflexivity.
Defined.

(** ** Plain attributes through the property meta-methods *)

Lemma getattr_other_attr body o n n' v :
  n' ≠ n → property_attr o n' = None →
  (getattr_str body n' (set_attrs o (<[n := v]> (attrs o)))).1
  = (getattr_str body n' o).1.
Proof.
  intros Hne Hp. unfold property_attr in Hp. unfold getattr_str. simpl.
  rewrite lookup_insert_ne by done.
  destruct (class_attr (members o) n') as [[? ? [p|]]|]; simplify_eq/=;
    by destruct (attrs o !! n').
Qed.

(** X12: a name that neither the class nor the framework has (no
    attribute of the class, not [__class__], [__dict__] or [__weakref__],
    none of the [framework_attrs]) works as a slot of its own through the
    meta-methods.  [Property.Set] stores the value and returns [None],
    [Property.Get] right after returns the value, the names that are no
    property read as before, and nothing else of the registry changes: not
    the dispatch table, the names, the buses or any other object. *)
Theorem set_then_get_plain_attribute
    (body : function → list value → M ServiceInterface value)
    (rpc : RPC) (iname : string) (addr : nat) (o : ServiceInterface)
    (n : string) (v : value) :
  dict_get (interfaces rpc) iname = Some addr →
  store rpc !! addr = Some o →
  plain_name o n →
  ∃ rpc',
    set_prop body iname n v rpc = Some (Return VNone, rpc')
    ∧ get_prop body iname n rpc' = (Return v, rpc')
    ∧ (∀ n', n' ≠ n → property_attr o n' = None →
         (get_prop body iname n' rpc').1 = (get_prop body iname n' rpc).1)
    ∧ dispatcher rpc' = dispatcher rpc
    ∧ interfaces rpc' = interfaces rpc
    ∧ bus rpc' = bus rpc
    ∧ bus_at rpc' addr = Some (__bus o)
    ∧ ∀ a, a ≠ addr → store rpc' !! a = store rpc !! a.
Proof.
  intros Hi Ho Hn.
  assert (Hp : property_attr o n = None).
  { unfold property_attr. by rewrite (proj1 Hn). }
  set (o' := set_attrs o (<[n := v]> (attrs o))).
  set (rpc' := set_store rpc (<[addr := o']> (store rpc))).
  assert (Ho' : store rpc' !! addr = Some o') by apply lookup_insert_eq.
  exists rpc'. split_and!; [| | |done..| |].
  - by rewrite (set_prop_at _ _ _ _ _ _ _ _ Hi Ho (setattr_plain _ _ _ _ Hn)).
  - rewrite (get_prop_at _ rpc' _ _ _ _ Hi Ho').
    rewrite (getattr_instance _ o' n v); [|done|apply lookup_insert_eq].
    cbn [fst snd]. by rewrite (store_unchanged rpc' addr o' Ho').
  - intros n' Hne Hp'.
    rewrite (get_prop_at _ rpc' _ _ _ _ Hi Ho'), (get_prop_at _ rpc _ _ _ _ Hi Ho).
    cbn [fst]. by apply getattr_other_attr.
  - unfold bus_at. by rewrite Ho'.
  - intros a Ha. unfold rpc'. simpl. by rewrite lookup_insert_ne.
Qed.

Lemma set_then_get_plain_attribute_witness :
  ∃ rpc',
    set_prop program_body "ee.arti.TimeService" "volume" (VInt 3) main_rpc
    = Some (Return VNone, rpc')
    ∧ get_prop program_body "ee.arti.TimeService" "volume" rpc'
      = (Return (VInt 3), rpc').
Proof.
  destruct (set_then_get_plain_attribute program_body main_rpc
              "ee.arti.TimeService" main_time_service TimeService_init
              "volume" (VInt 3)) as (rpc' & Hset & Hget & _).
  - reflexivity.
  - vm_compute. reflexivity.
  - split_and!; [reflexivity|apply (bool_decide_unpack _); vm_compute; exact I..].
  - by exists rpc'.
Defined.

(** ** All outcomes of GetAll *)

(** X13: [Property.GetAll] never changes the registry.  It raises
    [KeyError] for a name that is not registered, returns the empty mapping
    for a registered interface without properties, and raises [TypeError]
    for a registered interface with at least one property, before it has
    read any of them. *)
Theorem get_all_props_outcomes
    (body : function → list value → M ServiceInterface value)
    (rpc : RPC) (iname : string) :
  (get_all_props body iname rpc).2 = rpc
  ∧ (dict_get (interfaces rpc) iname = None →
     (get_all_props body iname rpc).1 = Raise KeyError)
  ∧ ∀ addr o,
      dict_get (interfaces rpc) iname = Some addr → store rpc !! addr = Some o →
      (get_all_props body iname rpc).1
      = match _get_properties o with
        | [] => Return []
        | _ :: _ => Raise TypeError
        end.
Proof.
  split_and!.
  - unfold get_all_props, mbind, M_bind.
    destruct (dict_get (interfaces rpc) iname) as [addr|] eqn:Hi.
    + rewrite (interfaces_getitem_Some _ _ _ Hi).
      destruct (store rpc !! addr) as [o|] eqn:Ho.
      * pose proof (get_all_props_cases body rpc iname addr o Hi Ho) as Hc.
        unfold get_all_props, mbind, M_bind in Hc.
        rewrite (interfaces_getitem_Some _ _ _ Hi) in Hc. by rewrite Hc.
      * by rewrite (at_object_None _ _ _ Ho).
    + by rewrite (interfaces_getitem_None _ _ Hi).
  - intros Hi. unfold get_all_props, mbind, M_bind.
    by rewrite (interfaces_getitem_None _ _ Hi).
  - intros addr o Hi Ho. by rewrite (get_all_props_cases body rpc iname addr o Hi Ho).
Qed.

Lemma get_all_props_outcomes_witness :
  get_all_props program_body "jrpc" main_rpc = (Return [], main_rpc)
  ∧ (get_all_props program_body "nowhere" main_rpc).1 = Raise KeyError.
Proof.
  destruct (get_all_props_outcomes program_body main_rpc "jrpc")
    as (Hstate & _ & Hcases).
  destruct (get_all_props_outcomes program_body main_rpc "nowhere")
    as (_ & Hunknown & _).
  split; [|by apply Hunknown].
  destruct (store main_rpc !! 0%nat) as [agg|] eqn:Hagg;
    [|by vm_compute in Hagg].
  rewrite (surjective_pairing (get_all_props program_body "jrpc" main_rpc)).
  rewrite Hstate, (Hcases 0%nat agg eq_refl Hagg). f_equal.
  assert (_get_properties agg = []) as ->; [|done].
  pose proof main_aggregator as Hm. rewrite Hagg in Hm. by injection Hm.
Defined.

(** ** The file server on a small file system *)

(** A root [/srv] that holds the one file [index.html]. *)
Lemma process_request_answers_witness :
  process_request unit (λ _ _, false)
    (λ root p, root +:+ "/" +:+ p) (λ p, p)
    (λ root p, inr (if String.prefix root p then root else "/"))
    (λ p, bool_decide (p = "/srv/index.html"))
    (λ p, bool_decide (p = "/srv/index.html"))
    (λ _, inr "<p>hi</p>")
    "/srv" "/" tt
  = inr (Some (OK,
               [("Server", "asyncio websocket server"); ("Connection", "close");
                ("Content-Type", "text/html"); ("Content-Length", "9")],
               "<p>hi</p>")).
Proof.
  destruct (process_request_answers unit (λ _ _, false)
              (λ root p, root +:+ "/" +:+ p) (λ p, p)
              (λ root p, inr (if String.prefix root p then root else "/"))
              (λ p, bool_decide (p = "/srv/index.html"))
              (λ p, bool_decide (p = "/srv/index.html"))
              (λ _, inr "<p>hi</p>") "/srv" "/" tt) as (Hok & _).
  apply Hok. split_and!; vm_compute; reflexivity.
Defined.
